(** * Indexed access and posting collection of the Python journal bindings

    A shallow embedding of [src/py_journal.cc]: the positional accessors
    [xacts_getitem] and [accounts_getitem] with their function-local
    static iterator caches, the [collector_wrapper] life cycle, and
    [py_collect] with its save/swap/restore of [session.journal]. *)

From Stdlib Require Import ZArith Lia.
From stdpp Require Import base option list gmap strings.

Local Open Scope Z_scope.

(** ** C [long] arithmetic

    [long] is the 64-bit type of the LP64 platforms the bindings are built
    for.  Signed overflow has no defined result in C++, so the operations
    that can overflow return [None] exactly where the standard leaves the
    result undefined. *)

Definition LONG_MAX : Z := 2 ^ 63 - 1.
Definition LONG_MIN : Z := - 2 ^ 63.

Definition in_long (z : Z) : Prop := LONG_MIN <= z <= LONG_MAX.

(** [labs]: the absolute value, undefined when it is not representable,
    which happens at [LONG_MIN] only. *)
Definition labs (i : Z) : option Z :=
  if i =? LONG_MIN then None else Some (Z.abs i).

(** [a + b] on [long]. *)
Definition long_add (a b : Z) : option Z :=
  let r := a + b in
  if (LONG_MIN <=? r) && (r <=? LONG_MAX) then Some r else None.

(** ** Outcomes of a call *)

(** The two Python errors the file sets itself ([PyErr_SetString] followed
    by [throw_error_already_set]) and the C++ exceptions of the
    collaborators called inside the [try] block of [py_collect]. *)
Inductive exn : Type :=
| PyExc_IndexError      (* "Index out of range" *)
| PyExc_RuntimeError    (* "Cannot have multiple journal collections open at once" *)
| parse_error           (* argument splitting / option processing *)
| handler_error.        (* raised by a posting handler during the walk *)

Inductive result (A : Type) : Type :=
| Ok (a : A)
| Raise (e : exn)
| Undefined.            (* the C++ standard assigns no behaviour *)

Arguments Ok {A} a.
Arguments Raise {A} e.
Arguments Undefined {A}.

(** ** Objects, iterators and the static cache *)

(** Objects are identified by their address; [&journal == last_journal]
    compares addresses. *)
Definition addr : Type := positive.

(** An iterator into the container owned by the object at [it_owner].
    While the container is not modified an iterator is determined by the
    number of [++] steps that separate it from [begin()]; the position that
    equals the container's size is [end()]. *)
Record iterator : Type := mk_iterator { it_owner : addr; it_pos : Z }.

(** The three function-local statics of an accessor, together with a
    counter of the iterator increments executed so far.  The counter is
    instrumentation: the source has no such variable. *)
Record statics : Type := mk_statics {
  last_index   : Z;
  last_journal : option addr;      (* NULL is [None] *)
  elem         : option iterator;  (* a default-constructed iterator is [None] *)
  steps        : Z
}.

(** [static long last_index = 0; static journal_t * last_journal = NULL;
     static xacts_list::iterator elem;] *)
Definition initial_statics : statics :=
  {| last_index := 0; last_journal := None; elem := None; steps := 0 |}.

Section IndexedAccessor.
(** [E] is the element type of the container, [R] what the accessor hands
    back: the transaction an element of the transaction list points to,
    the account in the second component of an entry of the children map. *)
Context {E R : Type}.
(** The container of the object at each address.  It is a fixed function:
    the containers are not modified between the calls considered. *)
Variable contents : addr -> list E.
Variable payload : E -> R.

Definition size (a : addr) : Z := Z.of_nat (length (contents a)).

Definition begin (a : addr) : iterator := {| it_owner := a; it_pos := 0 |}.

(** [elem++] / [++elem] *)
Definition incr (it : iterator) : iterator :=
  {| it_owner := it_owner it; it_pos := it_pos it + 1 |}.

(** [*elem]: defined on the positions of the container only, neither on
    [end()] nor on an iterator that was never assigned. *)
Definition deref (it : option iterator) : result R :=
  match it with
  | None => Undefined
  | Some it =>
      if it_pos it <? 0 then Undefined
      else match contents (it_owner it) !! Z.to_nat (it_pos it) with
           | Some e => Ok (payload e)
           | None => Undefined
           end
  end.

(** [long x = i < 0 ? len + i : i;] *)
Definition resolve (len i : Z) : Z := if i <? 0 then len + i else i.

(** The body shared by [xacts_getitem] and [accounts_getitem].

    [while (--x >= 0) elem++;] runs its body [x] times when [x] is
    positive and not at all otherwise, which is [Z.iter x incr]. *)
Definition getitem (a : addr) (i : Z) (st : statics) : result R * statics :=
  let len := size a in
  match labs i with
  | None => (Undefined, st)
  | Some abs_i =>
      if len <=? abs_i then (Raise PyExc_IndexError, st)
      else
        let slow :=
          let x := resolve len i in
          let it := Z.iter x incr (begin a) in
          let st' := {| last_index := i; last_journal := Some a;
                        elem := Some it; steps := steps st + Z.max 0 x |} in
          (deref (Some it), st') in
        if decide (last_journal st = Some a) then
          (* the right operand of [&&] is evaluated only now *)
          match long_add (last_index st) 1 with
          | None => (Undefined, st)
          | Some next =>
              if i =? next then
                let st' := {| last_index := i; last_journal := last_journal st;
                              elem := incr <$> elem st;
                              steps := steps st + 1 |} in
                (deref (elem st'), st')
              else slow
          end
        else slow
  end.

(** The states of the statics that calls with defined behaviour lead to. *)
Inductive reachable : statics -> Prop :=
| reachable_initial : reachable initial_statics
| reachable_call st a i r st' :
    reachable st -> in_long i ->
    getitem a i st = (r, st') -> r <> Undefined ->
    reachable st'.

(** What the statics of a reachable state satisfy: the cached iterator
    belongs to the cached object and stands at the resolved cached index,
    which passed the bounds check. *)
Definition cache_ok (st : statics) : Prop :=
  forall a, last_journal st = Some a ->
    (exists abs_i, labs (last_index st) = Some abs_i /\ abs_i < size a) /\
    elem st = Some {| it_owner := a;
                      it_pos := resolve (size a) (last_index st) |}.
End IndexedAccessor.

(** A sequence of calls of one accessor (an access pattern): the statics
    are threaded through; each call is recorded with its result and the
    number of iterator increments it executed. *)
Fixpoint run_calls {R : Type}
    (accessor : addr -> Z -> statics -> result R * statics)
    (calls : list (addr * Z)) (st : statics)
  : list (result R * Z) * statics :=
  match calls with
  | [] => ([], st)
  | (a, i) :: rest =>
      let '(r, st1) := accessor a i st in
      let '(rs, st2) := run_calls accessor rest st1 in
      ((r, steps st1 - steps st) :: rs, st2)
  end.

(** [get(c,k), get(c,k+1), ...]: [n] calls with ascending indices. *)
Definition ascending (a : addr) (k n : nat) : list (addr * Z) :=
  (fun m => (a, Z.of_nat m)) <$> seq k n.

(** ** The object graph *)

(** Postings and accounts are referred to by address ([post_t *],
    [account_t *]). *)

(** A transaction owns its postings, in the order they were recorded. *)
Record xact_t : Type := mk_xact { posts : list addr }.

(** A transient annotation: the object it is attached to and its data. *)
Definition annotation : Type := (addr * string)%type.

(** Modelled from the spec: [journal_t] of journal.h, which is not part of
    the sources.  The ledger owns its ordered transactions and holds at
    most one pending-collection flag and a transient annotation store that
    is cleared between queries.  Handlers attach annotations to the store;
    they never touch the flag. *)
Record journal_t : Type := mk_journal {
  xacts : list xact_t;
  pending : bool;
  xdata : list annotation
}.

(** Modelled from the spec: [journal_t::has_xdata], the spec's
    [has_pending_collection]: it reads the pending-collection flag. *)
Definition has_xdata (j : journal_t) : bool := pending j.

(** Modelled from the spec: [journal_t::clear_xdata], the spec's
    [clear_transient_data]: the one call of the collector's destructor
    clears the annotation store and the pending-collection flag. *)
Definition clear_xdata (j : journal_t) : journal_t :=
  {| xacts := xacts j; pending := false; xdata := [] |}.

(** An account owns its children, a map from name to child that is
    traversed in key order. *)
Record account_t : Type := mk_account { accounts : list (string * addr) }.

(** ** The two positional accessors *)

(** [xacts_len] *)
Definition xacts_len (heap : addr -> journal_t) (journal : addr) : Z :=
  size (fun a => xacts (heap a)) journal.

(** [xacts_getitem]: the container is [journal.xacts], the value returned
    is the transaction the element points to. *)
Definition xacts_getitem (heap : addr -> journal_t) (journal : addr) (i : Z)
  : statics -> result xact_t * statics :=
  getitem (fun a => xacts (heap a)) id journal i.

(** [accounts_len] *)
Definition accounts_len (heap : addr -> account_t) (account : addr) : Z :=
  size (fun a => accounts (heap a)) account.

(** [accounts_getitem]: the container is [account.accounts], the value
    returned is the account in the second component of the entry. *)
Definition accounts_getitem (heap : addr -> account_t) (account : addr) (i : Z)
  : statics -> result addr * statics :=
  getitem (fun a => accounts (heap a)) snd account i.

(** ** The collector *)

(** What [posts_getitem] writes to [std::cerr]: the name of a type, then a
    newline.  The names themselves are implementation-defined. *)
Inductive typeid_name : Type :=
| name_post_ptr | name_post | name_account_ptr | name_account.

(** ** The process state seen by [py_collect] *)

(** Operations on [session.journal], a [unique_ptr<journal_t>], and the
    call of [clear_xdata] by the collector's destructor, in the order in
    which they happen. *)
Inductive event : Type :=
| ev_release
| ev_reset (p : option addr)
| ev_clear_xdata (j : addr).

(** A verdict of the handler chain on one posting: whether the posting
    reaches the terminal collector, and the annotations attached on the
    way. *)
Record verdict : Type := mk_verdict {
  forward : bool;
  notes : list annotation
}.

Section Collect.
(** [report_t] (report.h) and the collaborators called inside the [try]
    block are not part of the sources.  Each takes the collector's own
    report and yields the updated one, or [None] when it throws. *)
Variable report_t : Type.
Variable split_arguments : string -> option (list string).
Variable process_arguments :
  list string -> report_t -> option (list string * report_t).
Variable normalize_options : string -> report_t -> option report_t.
Variable parse_query_args : list string -> string -> report_t -> option report_t.
(** The handler chain that [chain_post_handlers] builds for a report, as
    its effect on one posting; [None] when a handler throws. *)
Variable chain_post_handlers : report_t -> addr -> option verdict.

(** [struct collector_wrapper]: [posts_collector->posts] is [coll_posts]. *)
Record collector_wrapper : Type := mk_collector {
  coll_journal : addr;
  coll_report  : report_t;
  coll_posts   : list addr;
  coll_chain   : option (addr -> option verdict)
}.

(** The live journals, the active-ledger slot [session.journal] of the
    session every report refers to, the ambient report
    [*scope_t::default_scope], and the log of slot events. *)
Record world : Type := mk_world {
  journals      : gmap addr journal_t;
  session_journal : option addr;
  default_scope : report_t;
  events        : list event
}.

(** State and exception monad over [world]. *)
Definition W (A : Type) : Type := world -> result A * world.

Definition ret {A} (a : A) : W A := fun w => (Ok a, w).
Definition throw {A} (e : exn) : W A := fun w => (Raise e, w).
Definition bind {A B} (m : W A) (k : A -> W B) : W B :=
  fun w => match m w with
           | (Ok a, w') => k a w'
           | (Raise e, w') => (Raise e, w')
           | (Undefined, w') => (Undefined, w')
           end.
(** A collaborator that throws raises [e]. *)
Definition call {A} (e : exn) (o : option A) : W A :=
  match o with Some a => ret a | None => throw e end.

(** [try { body } catch (...) { handler; throw; }] *)
Definition try_catch_rethrow {A} (body : W A) (handler : W unit) : W A :=
  fun w => match body w with
           | (Raise e, w') =>
               match handler w' with
               | (Ok _, w'') => (Raise e, w'')
               | (Raise e', w'') => (Raise e', w'')
               | (Undefined, w'') => (Undefined, w'')
               end
           | r => r
           end.

#[global] Instance W_ret : MRet W := @ret.
#[global] Instance W_bind : MBind W := fun A B k m => bind m k.

(** The destructor of a local runs when an exception leaves its scope. *)
Definition unwinding {A} (destructor : W unit) (scope : W A) : W A :=
  try_catch_rethrow scope destructor.

(** [unique_ptr::release] on [session.journal]: the pointer is handed out
    and the slot becomes null. *)
Definition release : W (option addr) :=
  fun w => (Ok (session_journal w),
            {| journals := journals w;
               session_journal := None;
               default_scope := default_scope w;
               events := events w ++ [ev_release] |}).

(** [unique_ptr::reset(p)] on [session.journal]: the slot takes [p], and
    the journal it owned before, if any, is deleted. *)
Definition reset (p : option addr) : W unit :=
  fun w => (Ok tt,
            {| journals := match session_journal w with
                           | Some old => delete old (journals w)
                           | None => journals w
                           end;
               session_journal := p;
               default_scope := default_scope w;
               events := events w ++ [ev_reset p] |}).

(** Reading a journal through a reference; a reference to a deleted
    journal has no defined behaviour. *)
Definition journal_ref (journal : addr) : W journal_t :=
  fun w => match journals w !! journal with
           | Some j => (Ok j, w)
           | None => (Undefined, w)
           end.

Definition journal_store (journal : addr) (j : journal_t) : W unit :=
  fun w => (Ok tt,
            {| journals := <[journal := j]> (journals w);
               session_journal := session_journal w;
               default_scope := default_scope w;
               events := events w |}).

Definition log (e : event) : W unit :=
  fun w => (Ok tt,
            {| journals := journals w;
               session_journal := session_journal w;
               default_scope := default_scope w;
               events := events w ++ [e] |}).

(** [collector_wrapper(journal_t& _journal, report_t& base)]: the report
    is copied, the posting collector is new and empty. *)
Definition new_collector_wrapper (journal : addr) (base : report_t)
  : collector_wrapper :=
  {| coll_journal := journal; coll_report := base;
     coll_posts := []; coll_chain := None |}.

(** [~collector_wrapper() { journal.clear_xdata(); }] *)
Definition delete_collector_wrapper (coll : collector_wrapper) : W unit :=
  j ← journal_ref (coll_journal coll);
  journal_store (coll_journal coll) (clear_xdata j);;
  log (ev_clear_xdata (coll_journal coll)).

(** [collector_wrapper::length] *)
Definition length_ (coll : collector_wrapper) : Z :=
  Z.of_nat (length (coll_posts coll)).

(** Modelled from the spec: [journal_posts_iterator] of iterators.h, which
    is not part of the sources.  It yields every posting of every
    transaction, in transaction order and, within a transaction, in
    posting order. *)
Definition journal_posts_iterator (journal : addr) : W (list addr) :=
  j ← journal_ref journal;
  mret (concat (posts <$> xacts j)).

(** A handler attaches its annotations to the journal's transient store. *)
Definition attach (journal : addr) (ns : list annotation) : W unit :=
  j ← journal_ref journal;
  journal_store journal
    {| xacts := xacts j; pending := pending j; xdata := xdata j ++ ns |}.

(** Modelled from the spec: [pass_down_posts] of chain.h, which is not part
    of the sources.  Each posting the walker yields is pushed once into the
    head of the chain; the chain may annotate, and forwards the posting to
    the terminal collector or drops it; a handler that throws ends the walk.
    [collected] is the posting vector of the terminal collector. *)
Fixpoint pass_down_posts (chain : addr -> option verdict) (journal : addr)
    (walker : list addr) (collected : list addr) : W (list addr) :=
  match walker with
  | [] => mret collected
  | post :: rest =>
      v ← call handler_error (chain post);
      attach journal (notes v);;
      pass_down_posts chain journal rest
        (if forward v then collected ++ [post] else collected)
  end.

(** The [try] block of [py_collect]. *)
Definition collect_try (coll : collector_wrapper) (query : string)
  : W collector_wrapper :=
  args ← call parse_error (split_arguments query);
  '(remaining, report1) ← call parse_error
                             (process_arguments args (coll_report coll));
  report2 ← call parse_error (normalize_options "register" report1);
  report3 ← call parse_error
               (parse_query_args remaining "@Journal.collect" report2);
  walker ← journal_posts_iterator (coll_journal coll);
  let chain := chain_post_handlers report3 in
  collected ← pass_down_posts chain (coll_journal coll) walker
                 (coll_posts coll);
  mret {| coll_journal := coll_journal coll; coll_report := report3;
          coll_posts := collected; coll_chain := Some chain |}.

(** The ambient report: [*scope_t::default_scope], downcast to
    [report_t]. *)
Definition default_scope_ref : W report_t :=
  fun w => (Ok (default_scope w), w).

(** [py_collect] *)
Definition py_collect (journal : addr) (query : string) : W collector_wrapper :=
  j ← journal_ref journal;
  if has_xdata j then throw PyExc_RuntimeError
  else
    current_report ← default_scope_ref;
    let coll := new_collector_wrapper journal current_report in
    unwinding (delete_collector_wrapper coll)
      (save_journal ← release;
       reset (Some journal);;
       coll' ← try_catch_rethrow (collect_try coll query)
                  (release;; reset save_journal);
       release;;
       reset save_journal;;
       mret coll').

(** ** The outcome of [py_collect] in closed form *)

(** The four argument-processing calls of the [try] block, in sequence, on
    the report they are given. *)
Definition compile (query : string) (base : report_t) : option report_t :=
  args ← split_arguments query;
  '(remaining, report1) ← process_arguments args base;
  report2 ← normalize_options "register" report1;
  parse_query_args remaining "@Journal.collect" report2.

(** The walk as a function of the postings: the postings collected, or
    [None] when a handler threw, and the annotation store at that point. *)
Fixpoint walk (chain : addr -> option verdict) (walker : list addr)
    (collected : list addr) (store : list annotation)
  : option (list addr) * list annotation :=
  match walker with
  | [] => (Some collected, store)
  | post :: rest =>
      match chain post with
      | None => (None, store)
      | Some v =>
          walk chain rest
            (if forward v then collected ++ [post] else collected)
            (store ++ notes v)
      end
  end.

(** The world with one journal replaced and further events logged. *)
Definition world_with (w : world) (journal : addr) (j : journal_t)
    (evs : list event) : world :=
  {| journals := <[journal := j]> (journals w);
     session_journal := session_journal w;
     default_scope := default_scope w;
     events := events w ++ evs |}.

(** The slot events of one collection: save and install, then restore. *)
Definition swap_events (journal : addr) (saved : option addr) : list event :=
  [ev_release; ev_reset (Some journal); ev_release; ev_reset saved].

Definition py_collect_outcome (journal : addr) (query : string) (w : world)
  : result collector_wrapper * world :=
  match journals w !! journal with
  | None => (Undefined, w)
  | Some j =>
      if has_xdata j then (Raise PyExc_RuntimeError, w)
      else
        let swap := swap_events journal (session_journal w) in
        let failed e :=
          (Raise e, world_with w journal (clear_xdata j)
                      (swap ++ [ev_clear_xdata journal])) in
        match compile query (default_scope w) with
        | None => failed parse_error
        | Some report3 =>
            let chain := chain_post_handlers report3 in
            match walk chain (concat (posts <$> xacts j)) [] (xdata j) with
            | (None, _) => failed handler_error
            | (Some collected, store) =>
                (Ok {| coll_journal := journal; coll_report := report3;
                       coll_posts := collected; coll_chain := Some chain |},
                 world_with w journal
                   {| xacts := xacts j; pending := pending j;
                      xdata := store |}
                   swap)
            end
        end
  end.
End Collect.

Arguments mk_collector {report_t}.
Arguments coll_journal {report_t} c.
Arguments coll_report {report_t} c.
Arguments coll_posts {report_t} c.
Arguments coll_chain {report_t} c.
Arguments mk_world {report_t}.
Arguments journals {report_t} w.
Arguments session_journal {report_t} w.
Arguments default_scope {report_t} w.
Arguments events {report_t} w.
Arguments py_collect {report_t}.
Arguments py_collect_outcome {report_t}.
Arguments delete_collector_wrapper {report_t}.
Arguments new_collector_wrapper {report_t}.
Arguments length_ {report_t}.
Arguments compile {report_t}.
Arguments world_with {report_t}.

(** [posts_getitem]: [collector.posts_collector->posts[i]] is
    [std::vector::operator[]], which makes no check; an index that is not a
    position of the vector has no defined behaviour.  The four [typeid]
    lines follow the element access. *)
Definition posts_getitem {report_t : Type}
    (collector : collector_wrapper report_t) (i : Z)
    (cerr : list typeid_name) : result addr * list typeid_name :=
  if i <? 0 then (Undefined, cerr)
  else match coll_posts collector !! Z.to_nat i with
       | None => (Undefined, cerr)
       | Some post =>
           (Ok post,
            cerr ++ [name_post_ptr; name_post; name_account_ptr; name_account])
       end.

(** Whether the chain hands a posting on to the terminal collector; a
    posting whose handler throws is not forwarded. *)
Definition chain_forwards (chain : addr -> option verdict) (post : addr) : bool :=
  match chain post with Some v => forward v | None => false end.

(** The postings of a journal in the order of the walk. *)
Definition journal_posts (j : journal_t) : list addr :=
  concat (posts <$> xacts j).

(** * Sample objects *)

Definition xact_1 : xact_t := {| posts := [11%positive; 12%positive] |}.
Definition xact_2 : xact_t := {| posts := [21%positive] |}.
Definition xact_3 : xact_t := {| posts := [31%positive; 32%positive] |}.

(** Address 1 holds a journal of three transactions, address 2 a journal
    of one, every other address a journal without transactions. *)
Definition sample_journals (a : addr) : journal_t :=
  match a with
  | 1%positive => {| xacts := [xact_1; xact_2; xact_3]; pending := false;
                     xdata := [] |}
  | 2%positive => {| xacts := [xact_2]; pending := false; xdata := [] |}
  | _ => {| xacts := []; pending := false; xdata := [] |}
  end.

(** Address 5 holds an account with two children. *)
Definition sample_accounts (a : addr) : account_t :=
  match a with
  | 5%positive =>
      {| accounts := [("Assets"%string, 6%positive);
                      ("Expenses"%string, 7%positive)] |}
  | _ => {| accounts := [] |}
  end.

(** Reachability of the statics of each accessor. *)
Definition xacts_reachable (heap : addr -> journal_t) : statics -> Prop :=
  reachable (fun a => xacts (heap a)) id.

Definition accounts_reachable (heap : addr -> account_t) : statics -> Prop :=
  reachable (fun a => accounts (heap a)) snd.

(** The reading of negative indices under which every [-k] with
    [1 <= k <= length] is accepted. *)
Definition negative_index_claim : Prop :=
  forall (heap : addr -> journal_t) (journal : addr) (k : Z) (st1 st2 : statics),
    xacts_reachable heap st1 -> xacts_reachable heap st2 ->
    xacts_len heap journal <= LONG_MAX ->
    1 <= xacts_len heap journal ->
    1 <= k <= xacts_len heap journal ->
    exists x,
      fst (xacts_getitem heap journal (- k) st1) = Ok x /\
      fst (xacts_getitem heap journal (xacts_len heap journal - k) st2) = Ok x.

(** A report as the list of the arguments applied to it, and sample
    collaborators: a query that opens a quote never closed fails to split,
    posting 99 makes its handler throw, the postings of transactions 1 and
    3 are forwarded, and every posting handled is annotated. *)
Definition sample_report : Type := list string.

Definition sample_base : sample_report := ["--base"%string].

Definition sample_split_arguments (query : string) : option (list string) :=
  if decide (query = "'assets"%string) then None else Some [query].

Definition sample_process_arguments (args : list string) (r : sample_report)
  : option (list string * sample_report) := Some (args, r).

Definition sample_normalize_options (cmd : string) (r : sample_report)
  : option sample_report := Some (r ++ [cmd]).

Definition sample_parse_query_args (args : list string) (whence : string)
    (r : sample_report) : option sample_report := Some (r ++ args).

Definition sample_chain (r : sample_report) (post : addr) : option verdict :=
  if decide (post = 99%positive) then None
  else Some {| forward := bool_decide (post ∈ [11%positive; 12%positive;
                                               31%positive; 32%positive]);
               notes := [(post, "visited"%string)] |}.

(** Journal 1 has three transactions, journal 2 none, journal 3 one whose
    second posting makes the handler throw; journal 4 is the one installed
    in the session before the calls. *)
Definition sample_world : world sample_report :=
  {| journals :=
       {[ 1%positive := {| xacts := [xact_1; xact_2; xact_3];
                           pending := false; xdata := [] |};
          2%positive := {| xacts := []; pending := false; xdata := [] |};
          3%positive := {| xacts := [{| posts := [41%positive; 99%positive] |}];
                           pending := false; xdata := [] |};
          4%positive := {| xacts := []; pending := false; xdata := [] |} ]};
     session_journal := Some 4%positive;
     default_scope := sample_base;
     events := [] |}.

Definition sample_py_collect :
  addr -> string -> W sample_report (collector_wrapper sample_report) :=
  py_collect sample_split_arguments sample_process_arguments
    sample_normalize_options sample_parse_query_args sample_chain.

(** A world in which journal 1 has its pending-collection flag set and
    carries an annotation, and a collector on that journal. *)
Definition sample_journal_pending : journal_t :=
  {| xacts := [xact_1; xact_2; xact_3]; pending := true;
     xdata := [(11%positive, "visited"%string)] |}.

Definition sample_world_pending : world sample_report :=
  {| journals := {[ 1%positive := sample_journal_pending;
                    4%positive := {| xacts := []; pending := false; xdata := [] |} ]};
     session_journal := Some 4%positive;
     default_scope := sample_base;
     events := [] |}.

Definition sample_collector : collector_wrapper sample_report :=
  {| coll_journal := 1%positive; coll_report := sample_base;
     coll_posts := [11%positive]; coll_chain := None |}.


(** * Properties of the indexed accessors *)

Lemma labs_Some i : i <> LONG_MIN -> labs i = Some (Z.abs i).
Proof.
  intros Hi. unfold labs. destruct (Z.eqb_spec i LONG_MIN); [done | reflexivity].
Qed.

Lemma labs_Some_inv i abs_i : labs i = Some abs_i -> abs_i = Z.abs i /\ i <> LONG_MIN.
Proof.
  unfold labs. destruct (Z.eqb_spec i LONG_MIN); [done |].
  intros [= <-]. done.
Qed.

Lemma long_add_Some a b :
  in_long (a + b) -> long_add a b = Some (a + b).
Proof.
  intros [Hlo Hhi]. unfold long_add. cbv zeta.
  destruct (Z.leb_spec LONG_MIN (a + b)); [| lia].
  destruct (Z.leb_spec (a + b) LONG_MAX); [reflexivity | lia].
Qed.

Lemma long_add_Some_inv a b r : long_add a b = Some r -> r = a + b.
Proof.
  unfold long_add. cbv zeta.
  destruct (_ && _); [| done]. by intros [= <-].
Qed.

Section IndexedAccessorFacts.
Context {E R : Type}.
Variable contents : addr -> list E.
Variable payload : E -> R.

#[local] Abbreviation size' := (size contents).
#[local] Abbreviation deref' := (deref contents payload).
#[local] Abbreviation getitem' := (getitem contents payload).
#[local] Abbreviation reachable' := (reachable contents payload).
#[local] Abbreviation cache_ok' := (cache_ok contents).

(** The loop [while (--x >= 0) elem++;] leaves the iterator [max 0 x]
    positions further. *)
Lemma iter_incr x it :
  Z.iter x incr it =
  {| it_owner := it_owner it; it_pos := it_pos it + Z.max 0 x |}.
Proof.
  destruct x as [| p | p]; simpl.
  - destruct it; simpl. f_equal. lia.
  - induction p using Pos.peano_ind.
    + destruct it; reflexivity.
    + rewrite Pos.iter_succ, IHp. unfold incr; simpl. f_equal. lia.
  - destruct it; simpl. f_equal. lia.
Qed.

(** Dereferencing a position of the container yields its element. *)
Lemma deref_position a pos e :
  0 <= pos -> contents a !! Z.to_nat pos = Some e ->
  deref' (Some {| it_owner := a; it_pos := pos |}) = Ok (payload e).
Proof.
  intros Hpos He. unfold deref; simpl.
  destruct (Z.ltb_spec pos 0); [lia |]. by rewrite He.
Qed.

(** Dereferencing [end()] is undefined. *)
Lemma deref_end a :
  deref' (Some {| it_owner := a; it_pos := size' a |}) = Undefined.
Proof.
  unfold deref; simpl.
  destruct (Z.ltb_spec (size' a) 0); [done |].
  rewrite lookup_ge_None_2; [done |]. unfold size. lia.
Qed.

Lemma position_exists a pos :
  0 <= pos < size' a -> exists e, contents a !! Z.to_nat pos = Some e.
Proof.
  intros Hpos. apply lookup_lt_is_Some_2. unfold size in Hpos. lia.
Qed.

(** The bounds check comes first: an index whose absolute value reaches
    the length raises [IndexError] and leaves the statics as they were,
    whatever they hold. *)
Lemma getitem_out_of_range a i st :
  i <> LONG_MIN -> size' a <= Z.abs i ->
  getitem' a i st = (Raise PyExc_IndexError, st).
Proof.
  intros Hi Hlen. unfold getitem. rewrite (labs_Some i Hi).
  cbv zeta. destruct (Z.leb_spec (size' a) (Z.abs i)); [reflexivity | lia].
Qed.

(** The path taken when the cache does not apply. *)
Lemma getitem_slow a i st :
  - size' a < i < size' a ->
  i <> LONG_MIN ->
  ~ (last_journal st = Some a /\ long_add (last_index st) 1 = Some i) ->
  (last_journal st = Some a -> long_add (last_index st) 1 <> None) ->
  getitem' a i st =
  (deref' (Some {| it_owner := a; it_pos := resolve (size' a) i |}),
   {| last_index := i; last_journal := Some a;
      elem := Some {| it_owner := a; it_pos := resolve (size' a) i |};
      steps := steps st + resolve (size' a) i |}).
Proof.
  intros Hb Hi Hmiss Hadd.
  assert (Hres : 0 <= resolve (size' a) i)
    by (unfold resolve; destruct (Z.ltb_spec i 0); lia).
  unfold getitem. rewrite (labs_Some i Hi). cbv zeta.
  destruct (Z.leb_spec (size' a) (Z.abs i)); [lia |].
  rewrite iter_incr. unfold begin; simpl.
  rewrite (Z.max_r 0 _ Hres).
  destruct (decide (last_journal st = Some a)) as [Hj | Hj]; [| done].
  destruct (long_add (last_index st) 1) as [next |] eqn:Hnext.
  - destruct (Z.eqb_spec i next) as [-> | Hne]; [| done].
    exfalso. by apply Hmiss.
  - exfalso. by apply Hadd.
Qed.

(** The path taken when the cache applies. *)
Lemma getitem_fast a i st :
  - size' a < i < size' a ->
  i <> LONG_MIN ->
  last_journal st = Some a -> long_add (last_index st) 1 = Some i ->
  getitem' a i st =
  (deref' (incr <$> elem st),
   {| last_index := i; last_journal := Some a;
      elem := incr <$> elem st; steps := steps st + 1 |}).
Proof.
  intros Hb Hi Hj Hnext.
  unfold getitem. rewrite (labs_Some i Hi). cbv zeta.
  destruct (Z.leb_spec (size' a) (Z.abs i)); [lia |].
  rewrite decide_True by done. rewrite Hnext, Z.eqb_refl, Hj. reflexivity.
Qed.

(** Any call that returns or raises passed the [labs] of its index. *)
Lemma getitem_defined a i st r st' :
  getitem' a i st = (r, st') -> r <> Undefined -> i <> LONG_MIN.
Proof.
  intros Hcall Hr ->. unfold getitem in Hcall. simpl in Hcall.
  by injection Hcall as <- _.
Qed.

(** One call keeps the cache invariant, unless its behaviour is undefined. *)
Lemma getitem_cache_ok a i st r st' :
  cache_ok' st -> getitem' a i st = (r, st') -> r <> Undefined -> cache_ok' st'.
Proof.
  intros Hok Hcall Hr.
  pose proof (getitem_defined _ _ _ _ _ Hcall Hr) as Hi.
  destruct (Z.le_gt_cases (size' a) (Z.abs i)) as [Hout | Hin].
  { rewrite getitem_out_of_range in Hcall by done. by injection Hcall as _ <-. }
  assert (Hb : - size' a < i < size' a) by lia.
  assert (Hnew : exists abs_i, labs i = Some abs_i /\ abs_i < size' a)
    by (exists (Z.abs i); by rewrite labs_Some).
  destruct (decide (last_journal st = Some a)) as [Hj | Hj].
  - destruct (Hok a Hj) as [(abs_l & Hlabs & Hl) Helem].
    apply labs_Some_inv in Hlabs as [-> Hlmin].
    destruct (long_add (last_index st) 1) as [next |] eqn:Hnext.
    + destruct (decide (next = i)) as [-> | Hne].
      * rewrite getitem_fast in Hcall by done.
        injection Hcall as <- <-. rewrite Helem in Hr |- *. simpl in Hr |- *.
        apply long_add_Some_inv in Hnext.
        intros a' [= <-]; simpl. split; [done |].
        unfold incr; simpl. f_equal. f_equal.
        unfold resolve in Hr |- *.
        destruct (Z.ltb_spec (last_index st) 0), (Z.ltb_spec i 0); try lia.
        exfalso. apply Hr.
        replace (size' a + last_index st + 1) with (size' a) by lia.
        apply deref_end.
      * rewrite getitem_slow in Hcall; try done.
        -- injection Hcall as _ <-. by intros a' [= <-].
        -- intros [_ Heq]. rewrite Hnext in Heq. by injection Heq.
        -- intros _. by rewrite Hnext.
    + unfold getitem in Hcall. rewrite (labs_Some i Hi) in Hcall.
      cbv zeta in Hcall.
      destruct (Z.leb_spec (size' a) (Z.abs i)); [lia |].
      rewrite decide_True, Hnext in Hcall by done.
      by injection Hcall as <- _.
  - rewrite getitem_slow in Hcall; try done.
    + injection Hcall as _ <-. by intros a' [= <-].
    + by intros [? _].
Qed.

Lemma reachable_cache_ok st : reachable' st -> cache_ok' st.
Proof.
  induction 1 as [| st a i r st' _ IH _ Hcall Hr].
  - intros a [=].
  - by eapply getitem_cache_ok.
Qed.
Lemma in_bounds_not_min a i :
  size' a <= LONG_MAX -> - size' a < i < size' a -> i <> LONG_MIN.
Proof. unfold LONG_MAX, LONG_MIN. lia. Qed.

Lemma resolve_position a i :
  - size' a < i < size' a -> 0 <= resolve (size' a) i < size' a.
Proof. intros Hb. unfold resolve. destruct (Z.ltb_spec i 0); lia. Qed.

(** In a state the accessor can be in, [last_index + 1] does not overflow
    when the cached object is the one asked for. *)
Lemma cached_next_defined a st :
  cache_ok' st -> size' a <= LONG_MAX -> last_journal st = Some a ->
  long_add (last_index st) 1 = Some (last_index st + 1).
Proof.
  intros Hok Hfit Hj. destruct (Hok a Hj) as [(abs_l & Hlabs & Hl) _].
  apply labs_Some_inv in Hlabs as [-> Hmin].
  apply long_add_Some. unfold in_long, LONG_MAX, LONG_MIN in *. lia.
Qed.

(** Cache hit: one increment of the cached iterator. *)
Lemma getitem_hit a i st :
  cache_ok' st -> size' a <= LONG_MAX -> - size' a < i < size' a ->
  last_journal st = Some a -> i = last_index st + 1 ->
  let it := {| it_owner := a;
               it_pos := resolve (size' a) (last_index st) + 1 |} in
  getitem' a i st =
  (deref' (Some it),
   {| last_index := i; last_journal := Some a; elem := Some it;
      steps := steps st + 1 |}).
Proof.
  intros Hok Hfit Hb Hj Hi it.
  rewrite getitem_fast; try done.
  - destruct (Hok a Hj) as [_ ->]. reflexivity.
  - by eapply in_bounds_not_min.
  - rewrite Hi. by apply (cached_next_defined a).
Qed.

(** Cache miss: a walk from [begin()] to the resolved index. *)
Lemma getitem_miss a i st :
  cache_ok' st -> size' a <= LONG_MAX -> - size' a < i < size' a ->
  ~ (last_journal st = Some a /\ i = last_index st + 1) ->
  exists e, contents a !! Z.to_nat (resolve (size' a) i) = Some e /\
  getitem' a i st =
  (Ok (payload e),
   {| last_index := i; last_journal := Some a;
      elem := Some {| it_owner := a; it_pos := resolve (size' a) i |};
      steps := steps st + resolve (size' a) i |}).
Proof.
  intros Hok Hfit Hb Hmiss.
  pose proof (resolve_position a i Hb) as Hpos.
  destruct (position_exists a _ Hpos) as [e He]. exists e. split; [done |].
  rewrite getitem_slow.
  - by rewrite (deref_position a _ e) by (lia || done).
  - done.
  - by eapply in_bounds_not_min.
  - intros [Hj Hnext]. apply Hmiss. split; [done |].
    by apply long_add_Some_inv in Hnext.
  - intros Hj. by rewrite (cached_next_defined a).
Qed.

(** The accessor returns the element at the resolved index on every
    in-bounds call but one: index [0] asked right after index [-1] of the
    same object. *)
Lemma getitem_returns a i st :
  cache_ok' st -> size' a <= LONG_MAX -> - size' a < i < size' a ->
  ~ (last_journal st = Some a /\ last_index st = -1 /\ i = 0) ->
  exists e, contents a !! Z.to_nat (resolve (size' a) i) = Some e /\
            fst (getitem' a i st) = Ok (payload e).
Proof.
  intros Hok Hfit Hb Hbad.
  destruct (decide (last_journal st = Some a /\ i = last_index st + 1))
    as [[Hj Hi] | Hmiss].
  - pose proof (resolve_position a i Hb) as Hpos.
    destruct (position_exists a _ Hpos) as [e He]. exists e. split; [done |].
    rewrite getitem_hit by done. simpl.
    destruct (Hok a Hj) as [(abs_l & Hlabs & Hl) _].
    apply labs_Some_inv in Hlabs as [-> _].
    assert (Hsame : resolve (size' a) (last_index st) + 1 = resolve (size' a) i).
    { unfold resolve.
      destruct (Z.ltb_spec (last_index st) 0), (Z.ltb_spec i 0); try lia.
      exfalso. apply Hbad. repeat split; [done | lia | lia]. }
    rewrite Hsame.
    apply (deref_position a (resolve (size' a) i) e); [lia | done].
  - destruct (getitem_miss a i st Hok Hfit Hb Hmiss) as (e & He & ->).
    by exists e.
Qed.

(** Index [0] asked right after index [-1] of the same object: the cached
    iterator is moved from the last element to [end()] and dereferenced
    there. *)
Lemma getitem_after_minus_one a st :
  cache_ok' st -> size' a <= LONG_MAX -> 0 < size' a ->
  last_journal st = Some a -> last_index st = -1 ->
  fst (getitem' a 0 st) = Undefined.
Proof.
  intros Hok Hfit Hlen Hj Hl.
  rewrite getitem_hit; try done; try lia. simpl.
  rewrite Hl. unfold resolve; simpl.
  replace (size' a + -1 + 1) with (size' a) by lia. apply deref_end.
Qed.
Lemma ascending_S a k n :
  ascending a k (S n) = (a, Z.of_nat k) :: ascending a (S k) n.
Proof. reflexivity. Qed.

(** After the call of index [k - 1] the remaining ascending calls each
    take the cached path: one increment, the next element. *)
Lemma ascending_tail a n : forall (k : nat) st,
  cache_ok' st -> size' a <= LONG_MAX ->
  (1 <= k)%nat -> (k + n)%nat = length (contents a) ->
  last_journal st = Some a -> last_index st = Z.of_nat k - 1 ->
  fst (run_calls getitem' (ascending a k n) st) =
  (fun e => (Ok (payload e), 1)) <$> drop k (contents a).
Proof.
  induction n as [| n IH]; intros k st Hok Hfit Hk Hlen Hj Hl.
  - simpl. rewrite drop_ge by lia. reflexivity.
  - assert (Hb : - size' a < Z.of_nat k < size' a) by (unfold size; lia).
    destruct (lookup_lt_is_Some_2 (contents a) k) as [e He]; [lia |].
    pose proof (getitem_hit a (Z.of_nat k) st Hok Hfit Hb Hj) as Hhit.
    cbv zeta in Hhit. rewrite Hl in Hhit. specialize (Hhit ltac:(lia)).
    assert (Hres : resolve (size' a) (Z.of_nat k - 1) + 1 = Z.of_nat k).
    { unfold resolve. destruct (Z.ltb_spec (Z.of_nat k - 1) 0); lia. }
    rewrite Hres in Hhit.
    rewrite (deref_position a (Z.of_nat k) e) in Hhit
      by (lia || by rewrite Nat2Z.id).
    rewrite ascending_S. cbn [run_calls]. rewrite Hhit.
    match goal with
    | |- context [run_calls _ _ ?s] => set (st1 := s)
    end.
    assert (Hok1 : cache_ok' st1).
    { eapply (getitem_cache_ok a (Z.of_nat k) st); [done | exact Hhit | done]. }
    specialize (IH (S k) st1 Hok1 Hfit ltac:(lia) ltac:(lia) eq_refl
                   ltac:(simpl; lia)).
    destruct (run_calls getitem' (ascending a (S k) n) st1) as [rs st2].
    cbn [fst] in IH |- *. rewrite IH, (drop_S _ e k He).
    subst st1. cbn [fmap list_fmap steps]. do 2 f_equal. lia.
Qed.

(** A whole ascending pass that does not start right after index [-1] of
    the same object: the first call walks no step, every later call
    exactly one, and the elements come in container order. *)
Lemma ascending_pass a st :
  cache_ok' st -> size' a <= LONG_MAX ->
  ~ (last_journal st = Some a /\ last_index st = -1) ->
  fst (run_calls getitem' (ascending a 0 (length (contents a))) st) =
  match contents a with
  | [] => []
  | e :: rest =>
      (Ok (payload e), 0) :: ((fun e => (Ok (payload e), 1)) <$> rest)
  end.
Proof.
  intros Hok Hfit Hbad.
  destruct (contents a) as [| e0 rest] eqn:Hc; [reflexivity |].
  assert (Hsz : size' a = Z.of_nat (S (length rest)))
    by (unfold size; by rewrite Hc).
  assert (Hb : - size' a < 0 < size' a) by lia.
  destruct (getitem_miss a 0 st Hok Hfit Hb) as (e & He & Hcall).
  { intros [Hj Hl]. apply Hbad. split; [done | lia]. }
  rewrite Hc in He. injection He as <-.
  change (length (e0 :: rest)) with (S (length rest)).
  rewrite ascending_S. cbn [run_calls].
  change (Z.of_nat 0) with 0. rewrite Hcall.
  match goal with
  | |- context [run_calls _ _ ?s] => set (st1 := s)
  end.
  assert (Hok1 : cache_ok' st1).
  { eapply (getitem_cache_ok a 0 st); [done | exact Hcall | done]. }
  pose proof (ascending_tail a (length rest) 1 st1 Hok1 Hfit ltac:(lia)
                ltac:(rewrite Hc; simpl; lia) eq_refl eq_refl) as Htail.
  destruct (run_calls getitem' (ascending a 1 (length rest)) st1) as [rs st2].
  cbn [fst] in Htail |- *. rewrite Htail, Hc.
  subst st1. cbn [steps drop]. do 2 f_equal. unfold resolve; simpl. lia.
Qed.
(** A call that returns leaves the object and the index it was asked for
    in the statics. *)
Lemma getitem_Ok_statics a i st x st' :
  getitem' a i st = (Ok x, st') ->
  last_journal st' = Some a /\ last_index st' = i.
Proof.
  unfold getitem. destruct (labs i) as [abs_i |]; [| done]. cbv zeta.
  destruct (size' a <=? abs_i); [done |].
  destruct (decide (last_journal st = Some a)) as [Hj | Hj].
  - destruct (long_add (last_index st) 1) as [next |]; [| done].
    destruct (i =? next); by intros [= _ <-].
  - by intros [= _ <-].
Qed.

(** Sequential access: right after a call of index [k - 1] that returned,
    the call of index [k] is a cache hit: it costs one increment and
    returns the element at position [k]. *)
Lemma getitem_next a k st x st1 :
  cache_ok' st -> size' a <= LONG_MAX -> 1 <= k < size' a ->
  getitem' a (k - 1) st = (Ok x, st1) ->
  exists e, contents a !! Z.to_nat k = Some e /\
    getitem' a k st1 =
    (Ok (payload e),
     {| last_index := k; last_journal := Some a;
        elem := Some {| it_owner := a; it_pos := k |};
        steps := steps st1 + 1 |}).
Proof.
  intros Hok Hfit Hk Hprev.
  assert (Hok1 : cache_ok' st1)
    by (eapply (getitem_cache_ok a (k - 1) st); [done | exact Hprev | done]).
  destruct (getitem_Ok_statics _ _ _ _ _ Hprev) as [Hj Hl].
  destruct (position_exists a k) as [e He]; [lia |].
  exists e. split; [done |].
  pose proof (getitem_hit a k st1 Hok1 Hfit ltac:(lia) Hj ltac:(lia)) as Hhit.
  cbv zeta in Hhit. rewrite Hl in Hhit.
  assert (Hres : resolve (size' a) (k - 1) + 1 = k).
  { unfold resolve. destruct (Z.ltb_spec (k - 1) 0); lia. }
  rewrite Hres in Hhit.
  by rewrite (deref_position a k e) in Hhit by (lia || done).
Qed.

(** An ascending pass whose first call has defined behaviour. *)
Lemma ascending_pass_defined a st :
  cache_ok' st -> size' a <= LONG_MAX ->
  fst (getitem' a 0 st) <> Undefined ->
  fst (run_calls getitem' (ascending a 0 (length (contents a))) st) =
  match contents a with
  | [] => []
  | e :: rest =>
      (Ok (payload e), 0) :: ((fun e => (Ok (payload e), 1)) <$> rest)
  end.
Proof.
  intros Hok Hfit Hdef.
  destruct (decide (0 < size' a)) as [Hlen | Hlen].
  - apply ascending_pass; [done | done |].
    intros [Hj Hl]. apply Hdef. by apply getitem_after_minus_one.
  - unfold size in Hlen. by destruct (contents a).
Qed.
End IndexedAccessorFacts.

(** ** The accessors of the bindings *)

Lemma xacts_cache_ok heap st :
  xacts_reachable heap st -> cache_ok (fun a => xacts (heap a)) st.
Proof. apply reachable_cache_ok. Qed.

Lemma accounts_cache_ok heap st :
  accounts_reachable heap st -> cache_ok (fun a => accounts (heap a)) st.
Proof. apply reachable_cache_ok. Qed.

(** Every in-bounds call of [xacts_getitem] returns the transaction at the
    resolved index, except index [0] asked right after index [-1] of the
    same journal. *)
Lemma xacts_getitem_returns heap journal i st :
  xacts_reachable heap st ->
  xacts_len heap journal <= LONG_MAX ->
  - xacts_len heap journal < i < xacts_len heap journal ->
  ~ (last_journal st = Some journal /\ last_index st = -1 /\ i = 0) ->
  exists x,
    xacts (heap journal) !! Z.to_nat (resolve (xacts_len heap journal) i) = Some x /\
    fst (xacts_getitem heap journal i st) = Ok x.
Proof.
  intros Hreach Hfit Hb Hbad.
  apply (getitem_returns (fun a => xacts (heap a)) id journal i st);
    auto using xacts_cache_ok.
Qed.

Lemma accounts_getitem_returns heap account i st :
  accounts_reachable heap st ->
  accounts_len heap account <= LONG_MAX ->
  - accounts_len heap account < i < accounts_len heap account ->
  ~ (last_journal st = Some account /\ last_index st = -1 /\ i = 0) ->
  exists e,
    accounts (heap account) !! Z.to_nat (resolve (accounts_len heap account) i)
      = Some e /\
    fst (accounts_getitem heap account i st) = Ok (snd e).
Proof.
  intros Hreach Hfit Hb Hbad.
  apply (getitem_returns (fun a => accounts (heap a)) snd account i st);
    auto using accounts_cache_ok.
Qed.

(** For every index but [LONG_MIN] the bounds check decides before the
    cache is looked at: [|i| >= length] raises [IndexError] and the statics
    stay as they were, whatever they hold. *)
Lemma xacts_getitem_out_of_range heap journal i st :
  i <> LONG_MIN -> xacts_len heap journal <= Z.abs i ->
  xacts_getitem heap journal i st = (Raise PyExc_IndexError, st).
Proof. apply getitem_out_of_range. Qed.

Lemma accounts_getitem_out_of_range heap account i st :
  i <> LONG_MIN -> accounts_len heap account <= Z.abs i ->
  accounts_getitem heap account i st = (Raise PyExc_IndexError, st).
Proof. apply getitem_out_of_range. Qed.

(** C2.  Index [0] is valid in a container of three (two) elements, and the
    container is not modified; asked right after index [-1] of the same
    container, [xacts_getitem] and [accounts_getitem] take the cached path
    ([0 == -1 + 1]), move the iterator from the last element to [end()] and
    dereference it there: the call does not return the first element. *)
Theorem getitem_zero_after_minus_one_undefined :
  fst (run_calls (xacts_getitem sample_journals)
         [(1%positive, -1); (1%positive, 0)] initial_statics)
  = [(Ok xact_3, 2); (Undefined, 1)] /\
  fst (run_calls (accounts_getitem sample_accounts)
         [(5%positive, -1); (5%positive, 0)] initial_statics)
  = [(Ok 7%positive, 1); (Undefined, 1)].
Proof. split; reflexivity. Qed.

(** C9.  In the state [xacts_getitem] is in after [get(c,-1)], the
    in-bounds call [get(c,0)] meets the cache condition ([0 == -1 + 1]): it
    advances the cached iterator by one step, to [end()], and returns no
    transaction; the ascending pass [get(c,0), get(c,1), get(c,2)] begun
    there takes the cached path in every call, one step each, and returns
    no transaction at all. *)
Theorem ascending_pass_after_minus_one_undefined :
  fst (run_calls (xacts_getitem sample_journals)
         ((1%positive, -1) :: ascending 1%positive 0 3) initial_statics)
  = [(Ok xact_3, 2); (Undefined, 1); (Undefined, 1); (Undefined, 1)].
Proof. reflexivity. Qed.

(** C7.  At [i = LONG_MIN], whose absolute value exceeds every length,
    [labs(i)] is not representable: the guard [labs(i) >= len] has no
    defined value, and neither accessor raises [IndexError]. *)
Theorem getitem_long_min_undefined :
  forall (journals : addr -> journal_t) (accounts : addr -> account_t)
         (a : addr) (st : statics),
    xacts_getitem journals a LONG_MIN st = (Undefined, st) /\
    accounts_getitem accounts a LONG_MIN st = (Undefined, st).
Proof. intros. split; reflexivity. Qed.

(** C3, as amended.  In a journal of length [n], for every [k] with
    [1 <= k < n], [xacts_getitem] at [-k] and at [n - k] both return the
    transaction at position [n - k]; index [-n] is rejected by the guard
    [labs(i) >= len] with [IndexError]. *)
Theorem negative_index_resolves
    (heap : addr -> journal_t) (journal : addr) (k : Z) (st1 st2 : statics) :
  xacts_reachable heap st1 -> xacts_reachable heap st2 ->
  xacts_len heap journal <= LONG_MAX ->
  1 <= k < xacts_len heap journal ->
  (exists x,
      xacts (heap journal) !! Z.to_nat (xacts_len heap journal - k) = Some x /\
      fst (xacts_getitem heap journal (- k) st1) = Ok x /\
      fst (xacts_getitem heap journal (xacts_len heap journal - k) st2) = Ok x) /\
  xacts_getitem heap journal (- xacts_len heap journal) st1
  = (Raise PyExc_IndexError, st1).
Proof.
  intros Hr1 Hr2 Hfit Hk. split.
  - destruct (xacts_getitem_returns heap journal (- k) st1) as (x & Hx & Hget1);
      [done | done | lia | lia |].
    destruct (xacts_getitem_returns heap journal (xacts_len heap journal - k) st2)
      as (y & Hy & Hget2); [done | done | lia | lia |].
    assert (Hres1 : resolve (xacts_len heap journal) (- k)
                    = xacts_len heap journal - k).
    { unfold resolve. destruct (Z.ltb_spec (- k) 0); lia. }
    assert (Hres2 : resolve (xacts_len heap journal) (xacts_len heap journal - k)
                    = xacts_len heap journal - k).
    { unfold resolve.
      destruct (Z.ltb_spec (xacts_len heap journal - k) 0); lia. }
    rewrite Hres1 in Hx. rewrite Hres2 in Hy.
    assert (y = x) as -> by congruence.
    by exists x.
  - apply xacts_getitem_out_of_range; unfold LONG_MAX, LONG_MIN in *; lia.
Qed.

Lemma negative_index_resolves_witness :
  xacts_reachable sample_journals initial_statics /\
  xacts_len sample_journals 1%positive <= LONG_MAX /\
  1 <= 2 < xacts_len sample_journals 1%positive /\
  (exists x,
      xacts (sample_journals 1%positive)
        !! Z.to_nat (xacts_len sample_journals 1%positive - 2) = Some x /\
      fst (xacts_getitem sample_journals 1%positive (- 2) initial_statics)
      = Ok x /\
      fst (xacts_getitem sample_journals 1%positive
             (xacts_len sample_journals 1%positive - 2) initial_statics)
      = Ok x) /\
  xacts_getitem sample_journals 1%positive
    (- xacts_len sample_journals 1%positive) initial_statics
  = (Raise PyExc_IndexError, initial_statics).
Proof.
  assert (Hr : xacts_reachable sample_journals initial_statics)
    by apply reachable_initial.
  assert (Hfit : xacts_len sample_journals 1%positive <= LONG_MAX)
    by (vm_compute; discriminate).
  assert (Hk : 1 <= 2 < xacts_len sample_journals 1%positive)
    by (vm_compute; split; [discriminate | reflexivity]).
  split; [exact Hr | split; [exact Hfit | split; [exact Hk |]]].
  exact (negative_index_resolves sample_journals 1%positive 2
           initial_statics initial_statics Hr Hr Hfit Hk).
Defined.

(** C3, as stated, fails: in a journal of one transaction index [-1] is
    rejected, so [-k] is not accepted for every [k] up to the length. *)
Lemma negative_index_claim_fails : ~ negative_index_claim.
Proof.
  intros Hclaim.
  destruct (Hclaim sample_journals 2%positive 1 initial_statics initial_statics)
    as (x & Hneg & _).
  - apply reachable_initial.
  - apply reachable_initial.
  - vm_compute; discriminate.
  - vm_compute; discriminate.
  - vm_compute; split; discriminate.
  - vm_compute in Hneg. discriminate.
Qed.

(** X18.  An in-bounds call of [xacts_getitem] whose journal is the cached
    one and whose index is the cached index plus one advances the cached
    iterator by exactly one step and returns what it then points at (the
    transaction at the resolved index, for every index but [0]); any other
    in-bounds call walks from [begin()] to the resolved index, one step per
    position, returns that transaction and refreshes the cached journal,
    index and iterator.  So right after a call of index [k - 1] that
    returned, the call of index [k] costs exactly one step and returns
    transaction [k]; and an ascending pass [get(c,0) .. get(c,length-1)]
    whose first call has defined behaviour walks no step in its first call
    and one step in each later call, returning the transactions in
    order. *)
Theorem xacts_getitem_traversal_steps
    (heap : addr -> journal_t) (journal : addr) (st : statics) :
  xacts_reachable heap st ->
  xacts_len heap journal <= LONG_MAX ->
  let len := xacts_len heap journal in
  (forall i, - len < i < len ->
     last_journal st = Some journal /\ i = last_index st + 1 ->
     let '(r, st') := xacts_getitem heap journal i st in
     steps st' = steps st + 1 /\
     elem st' = incr <$> elem st /\
     last_journal st' = Some journal /\ last_index st' = i /\
     r = deref (fun a => xacts (heap a)) id (elem st') /\
     (i <> 0 ->
      exists x, xacts (heap journal) !! Z.to_nat (resolve len i) = Some x /\
                r = Ok x)) /\
  (forall i, - len < i < len ->
     ~ (last_journal st = Some journal /\ i = last_index st + 1) ->
     let '(r, st') := xacts_getitem heap journal i st in
     steps st' = steps st + resolve len i /\
     elem st' = Some {| it_owner := journal; it_pos := resolve len i |} /\
     last_journal st' = Some journal /\ last_index st' = i /\
     exists x, xacts (heap journal) !! Z.to_nat (resolve len i) = Some x /\
               r = Ok x) /\
  (forall k x st1, 1 <= k < len ->
     xacts_getitem heap journal (k - 1) st = (Ok x, st1) ->
     exists y, xacts (heap journal) !! Z.to_nat k = Some y /\
       xacts_getitem heap journal k st1 =
       (Ok y, {| last_index := k; last_journal := Some journal;
                 elem := Some {| it_owner := journal; it_pos := k |};
                 steps := steps st1 + 1 |})) /\
  (fst (xacts_getitem heap journal 0 st) <> Undefined ->
   fst (run_calls (xacts_getitem heap)
          (ascending journal 0 (length (xacts (heap journal)))) st)
   = match xacts (heap journal) with
     | [] => []
     | x :: rest => (Ok x, 0) :: ((fun y => (Ok y, 1)) <$> rest)
     end).
Proof.
  intros Hreach Hfit len. pose proof (xacts_cache_ok heap st Hreach) as Hok.
  split; [| split; [| split]].
  - intros i Hb [Hj Hi].
    pose proof (getitem_hit (fun a => xacts (heap a)) id journal i st
                  Hok Hfit Hb Hj Hi) as Hhit. cbv zeta in Hhit.
    unfold xacts_getitem. rewrite Hhit.
    destruct (Hok journal Hj) as [_ Helem].
    repeat split; try done.
    + by rewrite Helem.
    + intros Hi0.
      destruct (xacts_getitem_returns heap journal i st Hreach Hfit Hb)
        as (x & Hx & Hget); [intros (_ & _ & ?); done |].
      exists x. split; [done |].
      unfold xacts_getitem in Hget. rewrite Hhit in Hget. exact Hget.
  - intros i Hb Hmiss.
    destruct (getitem_miss (fun a => xacts (heap a)) id journal i st
                Hok Hfit Hb Hmiss) as (x & Hx & Hcall).
    unfold xacts_getitem. rewrite Hcall.
    repeat split; try done. by exists x.
  - intros k x st1 Hk Hprev.
    exact (getitem_next (fun a => xacts (heap a)) id journal k st x st1
             Hok Hfit Hk Hprev).
  - intros Hdef.
    exact (ascending_pass_defined (fun a => xacts (heap a)) id journal st
             Hok Hfit Hdef).
Qed.

Lemma xacts_getitem_traversal_steps_witness :
  xacts_reachable sample_journals initial_statics /\
  xacts_len sample_journals 1%positive <= LONG_MAX /\
  fst (run_calls (xacts_getitem sample_journals)
         (ascending 1%positive 0 3) initial_statics)
  = [(Ok xact_1, 0); (Ok xact_2, 1); (Ok xact_3, 1)].
Proof.
  assert (Hr : xacts_reachable sample_journals initial_statics)
    by apply reachable_initial.
  assert (Hfit : xacts_len sample_journals 1%positive <= LONG_MAX)
    by (vm_compute; discriminate).
  split; [exact Hr | split; [exact Hfit |]].
  destruct (xacts_getitem_traversal_steps sample_journals 1%positive
              initial_statics Hr Hfit) as (_ & _ & _ & Hpass).
  apply Hpass. vm_compute. discriminate.
Defined.

(** ** The collector's accessor *)

(** An index inside the collected postings yields the posting at that
    position, in arrival order. *)
Lemma posts_getitem_in_range {report_t}
    (collector : collector_wrapper report_t) i cerr :
  0 <= i < length_ collector ->
  exists post, coll_posts collector !! Z.to_nat i = Some post /\
               fst (posts_getitem collector i cerr) = Ok post.
Proof.
  intros Hi. unfold length_ in Hi.
  destruct (lookup_lt_is_Some_2 (coll_posts collector) (Z.to_nat i))
    as [p Hp]; [lia |].
  exists p. split; [done |]. unfold posts_getitem.
  destruct (Z.ltb_spec i 0); [lia |]. by rewrite Hp.
Qed.

(** C1.  [posts_getitem] makes no bounds check: it raises [IndexError]
    for no index at all, and an index outside the range from [0] to the
    length, here index [0] of a collector without postings and indices [1]
    and [-1] of a collector of one posting, is an unchecked vector access
    without defined behaviour. *)
Theorem posts_getitem_unchecked :
  (forall report_t (collector : collector_wrapper report_t) i cerr,
      fst (posts_getitem collector i cerr) <> Raise PyExc_IndexError) /\
  posts_getitem (new_collector_wrapper 1%positive sample_base) 0 []
  = (Undefined, []) /\
  posts_getitem sample_collector 1 [] = (Undefined, []) /\
  posts_getitem sample_collector (-1) [] = (Undefined, []).
Proof.
  split; [| repeat split].
  intros report_t collector i cerr. unfold posts_getitem.
  destruct (i <? 0); [done |].
  by destruct (coll_posts collector !! Z.to_nat i).
Qed.

(** * Properties of the collection *)

(** After [clear_xdata] the store is empty and the flag is down. *)
Lemma has_xdata_clear j : has_xdata (clear_xdata j) = false.
Proof. reflexivity. Qed.

Section CollectFacts.
Variable report_t : Type.
Variable split_arguments : string -> option (list string).
Variable process_arguments :
  list string -> report_t -> option (list string * report_t).
Variable normalize_options : string -> report_t -> option report_t.
Variable parse_query_args : list string -> string -> report_t -> option report_t.
Variable chain_post_handlers : report_t -> addr -> option verdict.

#[local] Abbreviation collect :=
  (py_collect split_arguments process_arguments normalize_options
     parse_query_args chain_post_handlers).
#[local] Abbreviation outcome :=
  (py_collect_outcome split_arguments process_arguments normalize_options
     parse_query_args chain_post_handlers).
#[local] Abbreviation compiled :=
  (compile split_arguments process_arguments normalize_options
     parse_query_args).

#[local] Ltac run :=
  unfold attach, journal_posts_iterator, delete_collector_wrapper,
    default_scope_ref;
  unfold mbind, W_bind, bind, mret, W_ret, ret, throw, call, journal_ref,
    journal_store, log; simpl.

Lemma world_with_same (w : world report_t) journal j :
  journals w !! journal = Some j -> world_with w journal j [] = w.
Proof.
  intros Hj. destruct w as [js slot scope evs]; unfold world_with; simpl in *.
  f_equal; [by apply insert_id | by rewrite app_nil_r].
Qed.

(** The walk, run in the monad, does what [walk] computes. *)
Lemma pass_down_posts_walk chain journal walker :
  forall collected (w : world report_t) j,
    journals w !! journal = Some j ->
    pass_down_posts report_t chain journal walker collected w =
    (match fst (walk chain walker collected (xdata j)) with
     | Some c => Ok c
     | None => Raise handler_error
     end,
     world_with w journal
       {| xacts := xacts j; pending := pending j;
          xdata := snd (walk chain walker collected (xdata j)) |} []).
Proof.
  induction walker as [| post rest IH]; intros collected w j Hj.
  - simpl. rewrite world_with_same; [done |]. by destruct j.
  - simpl. destruct (chain post) as [v |] eqn:Hv.
    + run. rewrite Hj.
      erewrite IH by (simpl; apply lookup_insert_eq). simpl.
      f_equal. unfold world_with; simpl.
      f_equal. apply insert_insert_eq.
    + run. rewrite world_with_same; [done |]. by destruct j.
Qed.
(** The [try] block: argument processing on the collector's report, then
    the walk. *)
Lemma collect_try_outcome (coll : collector_wrapper report_t) query
    (w : world report_t) j :
  journals w !! coll_journal coll = Some j ->
  collect_try report_t split_arguments process_arguments normalize_options
    parse_query_args chain_post_handlers coll query w =
  match compiled query (coll_report coll) with
  | None => (Raise parse_error, w)
  | Some report3 =>
      let chain := chain_post_handlers report3 in
      let walked := walk chain (concat (posts <$> xacts j)) (coll_posts coll)
                      (xdata j) in
      (match fst walked with
       | Some collected =>
           Ok {| coll_journal := coll_journal coll; coll_report := report3;
                 coll_posts := collected; coll_chain := Some chain |}
       | None => Raise handler_error
       end,
       world_with w (coll_journal coll)
         {| xacts := xacts j; pending := pending j; xdata := snd walked |} [])
  end.
Proof.
  intros Hj. unfold collect_try, compile. run.
  destruct (split_arguments query) as [args |]; simpl; [| done].
  destruct (process_arguments args (coll_report coll)) as [[remaining r1] |];
    simpl; [| done].
  destruct (normalize_options "register" r1) as [r2 |]; simpl; [| done].
  destruct (parse_query_args remaining "@Journal.collect" r2) as [r3 |];
    simpl; [| done].
  rewrite Hj. rewrite (pass_down_posts_walk _ _ _ _ _ j Hj).
  by destruct (walk _ _ _ _) as [[c |] store].
Qed.

(** [py_collect] computes [py_collect_outcome]. *)
Lemma py_collect_unfold journal query (w : world report_t) :
  collect journal query w = outcome journal query w.
Proof.
  unfold py_collect, py_collect_outcome. run.
  destruct (journals w !! journal) as [j |] eqn:Hj; [| done].
  destruct (has_xdata j) eqn:Hx; [done |].
  unfold unwinding, try_catch_rethrow, release, reset. run.
  erewrite collect_try_outcome by (simpl; exact Hj). simpl.
  destruct (compiled query (default_scope w)) as [r3 |]; simpl.
  - destruct (walk (chain_post_handlers r3) (concat (posts <$> xacts j)) []
                (xdata j)) as [[c |] store]; simpl.
    + f_equal. unfold world_with, swap_events; simpl. f_equal.
      by rewrite <- !app_assoc.
    + rewrite lookup_insert_eq. simpl. f_equal.
      unfold world_with, swap_events, clear_xdata; simpl. f_equal.
      * by rewrite insert_insert_eq.
      * by rewrite <- !app_assoc.
  - rewrite Hj. simpl. f_equal.
    unfold world_with, swap_events, clear_xdata; simpl. f_equal.
    by rewrite <- !app_assoc.
Qed.
(** Only the guard raises [RuntimeError]. *)
Lemma collect_runtime_error journal query (w : world report_t) :
  fst (collect journal query w) = Raise PyExc_RuntimeError ->
  exists j, journals w !! journal = Some j /\ has_xdata j = true.
Proof.
  rewrite py_collect_unfold. unfold py_collect_outcome.
  destruct (journals w !! journal) as [j |]; [| done].
  destruct (has_xdata j) eqn:Hx; [by exists j |]. cbv zeta.
  destruct (compiled query (default_scope w)) as [r3 |]; [| done].
  by destruct (walk _ _ _ _) as [[c |] store].
Qed.

(** C6.  When the journal's pending-collection flag ([has_xdata]) is set,
    [py_collect] raises the concurrent-collection [RuntimeError] at once
    and the whole process state is as before: the slot [session.journal]
    was not released or reset (no slot event is logged) and the journal
    is untouched. *)
Theorem collect_refused_while_pending
    (w : world report_t) (journal : addr) (j : journal_t) (query : string) :
  journals w !! journal = Some j -> has_xdata j = true ->
  collect journal query w = (Raise PyExc_RuntimeError, w).
Proof.
  intros Hj Hx. rewrite py_collect_unfold. unfold py_collect_outcome.
  by rewrite Hj, Hx.
Qed.

(** C4.  After every call of [py_collect] the slot [session.journal] holds
    what it held before.  On success the slot events are: release, reset to
    the journal, release, reset to the saved value.  When argument
    processing or a handler throws, the same four events are followed by
    the destructor of the collector: the slot is restored in the [catch]
    block, before the exception leaves [py_collect].  When the guard
    raises, nothing happened at all.  The call has defined behaviour
    whenever the journal is live. *)
Theorem collect_restores_session_journal
    (w : world report_t) (journal : addr) (query : string) :
  let '(r, w') := collect journal query w in
  session_journal w' = session_journal w /\
  match r with
  | Ok _ =>
      events w' = events w ++ swap_events journal (session_journal w)
  | Raise PyExc_RuntimeError => w' = w
  | Raise _ =>
      events w' = events w ++ swap_events journal (session_journal w)
                           ++ [ev_clear_xdata journal]
  | Undefined => journals w !! journal = None
  end.
Proof.
  rewrite py_collect_unfold. unfold py_collect_outcome.
  destruct (journals w !! journal) as [j |]; [| done].
  destruct (has_xdata j); [done |]. cbv zeta.
  destruct (compiled query (default_scope w)) as [r3 |]; [| done].
  by destruct (walk _ _ _ _) as [[c |] store].
Qed.

(** C8.  Destroying a collector whose journal is live empties the
    journal's transient annotation store; [has_xdata] is false afterwards,
    whatever it was, the slot is not touched, and no [py_collect] on that
    journal is refused by the guard. *)
Theorem collector_destruction_clears
    (w : world report_t) (coll : collector_wrapper report_t) (j : journal_t) :
  journals w !! coll_journal coll = Some j ->
  exists w',
    delete_collector_wrapper coll w = (Ok tt, w') /\
    journals w' !! coll_journal coll = Some (clear_xdata j) /\
    xdata (clear_xdata j) = [] /\
    has_xdata (clear_xdata j) = false /\
    session_journal w' = session_journal w /\
    forall query,
      fst (collect (coll_journal coll) query w') <> Raise PyExc_RuntimeError.
Proof.
  intros Hj. eexists. split; [| split; [| split; [| split; [| split]]]].
  - run. rewrite Hj. reflexivity.
  - simpl. apply lookup_insert_eq.
  - reflexivity.
  - reflexivity.
  - reflexivity.
  - intros query Herr.
    apply collect_runtime_error in Herr as (j' & Hj' & Hx).
    simpl in Hj'. rewrite lookup_insert_eq in Hj'. by injection Hj' as <-.
Qed.

End CollectFacts.

(** ** The collection on the sample world *)

(** The three ways out of [py_collect] past the guard, on the sample
    world whose slot holds journal 4: a collection that succeeds, a query
    that fails to split, a handler that throws on posting 99.  Each time
    the slot holds journal 4 again. *)
Example collect_sample_paths :
  (let '(r, w) := sample_py_collect 1%positive "assets" sample_world in
   (coll_posts <$> (match r with Ok c => Some c | _ => None end),
    session_journal w, events w))
  = (Some [11%positive; 12%positive; 31%positive; 32%positive],
     Some 4%positive,
     [ev_release; ev_reset (Some 1%positive); ev_release;
      ev_reset (Some 4%positive)]) /\
  (let '(r, w) := sample_py_collect 1%positive "'assets" sample_world in
   (match r with Raise e => Some e | _ => None end,
    session_journal w, events w))
  = (Some parse_error, Some 4%positive,
     [ev_release; ev_reset (Some 1%positive); ev_release;
      ev_reset (Some 4%positive); ev_clear_xdata 1%positive]) /\
  (let '(r, w) := sample_py_collect 3%positive "assets" sample_world in
   (match r with Raise e => Some e | _ => None end,
    session_journal w, events w))
  = (Some handler_error, Some 4%positive,
     [ev_release; ev_reset (Some 3%positive); ev_release;
      ev_reset (Some 4%positive); ev_clear_xdata 3%positive]).
Proof. repeat split; vm_compute; reflexivity. Qed.

Lemma collect_refused_while_pending_witness :
  journals sample_world_pending !! 1%positive = Some sample_journal_pending /\
  has_xdata sample_journal_pending = true /\
  sample_py_collect 1%positive "assets" sample_world_pending
  = (Raise PyExc_RuntimeError, sample_world_pending).
Proof.
  assert (Hj : journals sample_world_pending !! 1%positive
               = Some sample_journal_pending) by reflexivity.
  assert (Hx : has_xdata sample_journal_pending = true) by reflexivity.
  split; [exact Hj | split; [exact Hx |]].
  exact (collect_refused_while_pending sample_report sample_split_arguments
           sample_process_arguments sample_normalize_options
           sample_parse_query_args sample_chain
           sample_world_pending 1%positive sample_journal_pending "assets"
           Hj Hx).
Defined.

Lemma collector_destruction_clears_witness :
  journals sample_world_pending !! coll_journal sample_collector
  = Some sample_journal_pending /\
  exists w',
    delete_collector_wrapper sample_collector sample_world_pending
    = (Ok tt, w') /\
    journals w' !! coll_journal sample_collector
    = Some (clear_xdata sample_journal_pending) /\
    xdata (clear_xdata sample_journal_pending) = [] /\
    has_xdata (clear_xdata sample_journal_pending) = false /\
    session_journal w' = session_journal sample_world_pending /\
    forall query,
      fst (sample_py_collect (coll_journal sample_collector) query w')
      <> Raise PyExc_RuntimeError.
Proof.
  assert (Hj : journals sample_world_pending !! coll_journal sample_collector
               = Some sample_journal_pending) by reflexivity.
  split; [exact Hj |].
  exact (collector_destruction_clears sample_report sample_split_arguments
           sample_process_arguments sample_normalize_options
           sample_parse_query_args sample_chain
           sample_world_pending sample_collector sample_journal_pending Hj).
Defined.



(** * Further properties of the indexed accessors

    The statements of this part are about [getitem], the body that
    [xacts_getitem] and [accounts_getitem] share, for any container and any
    payload, and so hold of both accessors. *)

Section IndexedAccessorMore.
Context {E R : Type}.
Variable contents : addr -> list E.
Variable payload : E -> R.

#[local] Abbreviation size' := (size contents).
#[local] Abbreviation deref' := (deref contents payload).
#[local] Abbreviation getitem' := (getitem contents payload).
#[local] Abbreviation reachable' := (reachable contents payload).
#[local] Abbreviation cache_ok' := (cache_ok contents).

Lemma deref_no_raise it e : deref' it <> Raise e.
Proof.
  unfold deref. destruct it as [it |]; [| done].
  destruct (it_pos it <? 0); [done |].
  by destruct (contents (it_owner it) !! Z.to_nat (it_pos it)).
Qed.

(** X1.  The only exception an accessor raises is [IndexError]; it raises it
    exactly for the indices other than [LONG_MIN] whose absolute value
    reaches the length, and then the statics are what they were: no cached
    element is handed out and the cache is not disturbed. *)
Theorem getitem_raises_iff (a : addr) (i : Z) (st : statics) :
  (fst (getitem' a i st) = Raise PyExc_IndexError <->
   i <> LONG_MIN /\ size' a <= Z.abs i) /\
  (forall e, fst (getitem' a i st) = Raise e ->
             e = PyExc_IndexError /\ snd (getitem' a i st) = st).
Proof.
  assert (Hraise : forall e, fst (getitem' a i st) = Raise e ->
            e = PyExc_IndexError /\ i <> LONG_MIN /\ size' a <= Z.abs i /\
            snd (getitem' a i st) = st).
  { intros e. unfold getitem.
    destruct (labs i) as [abs_i |] eqn:Hlabs; [| done].
    apply labs_Some_inv in Hlabs as [-> Hmin]. cbv zeta.
    destruct (Z.leb_spec (size' a) (Z.abs i)) as [Hout | Hin].
    - simpl. by intros [= <-].
    - destruct (decide (last_journal st = Some a)).
      + destruct (long_add (last_index st) 1) as [next |]; [| done].
        destruct (i =? next); cbn [fst]; intros Hd;
          by apply deref_no_raise in Hd.
      + cbn [fst]. intros Hd. by apply deref_no_raise in Hd. }
  split; [split |].
  - intros Hr. by destruct (Hraise _ Hr) as (_ & ? & ? & _).
  - intros [Hmin Hout]. by rewrite getitem_out_of_range.
  - intros e Hr. by destruct (Hraise _ Hr) as (? & _ & _ & ?).
Qed.

(** X2.  From a state the accessor can be in, a call returns exactly when the
    index is in bounds and is not index [0] asked right after index [-1] of
    the same object; what it returns is the element at the resolved
    index. *)
Theorem getitem_returns_iff (a : addr) (i : Z) (st : statics) (r : R) :
  reachable' st -> size' a <= LONG_MAX ->
  fst (getitem' a i st) = Ok r <->
  - size' a < i < size' a /\
  ~ (last_journal st = Some a /\ last_index st = -1 /\ i = 0) /\
  exists e, contents a !! Z.to_nat (resolve (size' a) i) = Some e /\
            r = payload e.
Proof.
  intros Hreach Hfit.
  pose proof (reachable_cache_ok contents payload st Hreach) as Hok.
  split.
  - intros Hr.
    assert (Hmin : i <> LONG_MIN).
    { intros ->. unfold getitem in Hr. simpl in Hr. discriminate Hr. }
    assert (Hb : - size' a < i < size' a).
    { destruct (Z.le_gt_cases (size' a) (Z.abs i)) as [Hout | Hin]; [| lia].
      rewrite getitem_out_of_range in Hr by done. discriminate Hr. }
    assert (Hbad : ~ (last_journal st = Some a /\ last_index st = -1 /\ i = 0)).
    { intros (Hj & Hl & ->).
      rewrite (getitem_after_minus_one contents payload a st) in Hr;
        [discriminate Hr | done | done | lia | done | done]. }
    split; [done |]. split; [done |].
    destruct (getitem_returns contents payload a i st Hok Hfit Hb Hbad)
      as (e & He & Hget).
    exists e. split; [done |]. rewrite Hget in Hr. by injection Hr.
  - intros (Hb & Hbad & e & He & ->).
    destruct (getitem_returns contents payload a i st Hok Hfit Hb Hbad)
      as (e' & He' & Hget).
    rewrite Hget. congruence.
Qed.

(** X3.  What every state the accessor can be in satisfies.  Without a cached
    object the statics are the initial ones.  With one, the cached index is
    within the bounds of its container and the cached iterator stands on
    the element at the resolved cached index: it is never [end()] and can
    be dereferenced. *)
Theorem reachable_statics_invariant (st : statics) :
  reachable' st ->
  match last_journal st with
  | None => st = initial_statics
  | Some a =>
      - size' a < last_index st < size' a /\
      elem st = Some {| it_owner := a;
                        it_pos := resolve (size' a) (last_index st) |} /\
      exists e,
        contents a !! Z.to_nat (resolve (size' a) (last_index st)) = Some e /\
        deref' (elem st) = Ok (payload e)
  end.
Proof.
  intros Hreach.
  assert (Hnone : last_journal st = None -> st = initial_statics).
  { induction Hreach as [| st a i r st' Hreach IH Hi Hcall Hr]; [done |].
    intros Hj. unfold getitem in Hcall.
    destruct (labs i) as [abs_i |]; [| by injection Hcall as <- _].
    cbv zeta in Hcall. destruct (size' a <=? abs_i).
    { injection Hcall as _ <-. by apply IH. }
    destruct (decide (last_journal st = Some a)) as [Hc | Hc].
    - destruct (long_add (last_index st) 1) as [next |];
        [| by injection Hcall as <- _].
      destruct (i =? next); injection Hcall as _ <-; simpl in Hj; congruence.
    - injection Hcall as _ <-. simpl in Hj. discriminate Hj. }
  destruct (last_journal st) as [a |] eqn:Hj; [| by apply Hnone].
  destruct (reachable_cache_ok contents payload st Hreach a Hj)
    as [(abs_l & Hlabs & Hl) Helem].
  apply labs_Some_inv in Hlabs as [-> Hmin].
  assert (Hb : - size' a < last_index st < size' a) by lia.
  split; [done |]. split; [done |].
  pose proof (resolve_position contents a _ Hb) as Hpos.
  destruct (position_exists contents a _ Hpos) as [e He].
  exists e. split; [done |]. rewrite Helem.
  apply (deref_position contents payload a _ e); [lia | done].
Qed.
(** X4.  The smallest containers.  On an empty container every index other
    than [LONG_MIN] raises [IndexError].  On a container of one element a
    call returns exactly for index [0], with that element; index [-1], the
    last element by the usual convention, is rejected like every other
    index. *)
Theorem getitem_small_containers (a : addr) (st : statics) :
  (contents a = [] ->
   forall i, i <> LONG_MIN ->
     getitem' a i st = (Raise PyExc_IndexError, st)) /\
  (forall e, contents a = [e] ->
     (forall i, i <> LONG_MIN -> i <> 0 ->
        getitem' a i st = (Raise PyExc_IndexError, st)) /\
     (reachable' st -> fst (getitem' a 0 st) = Ok (payload e))).
Proof.
  split.
  - intros Hc i Hmin. apply getitem_out_of_range; [done |].
    unfold size. rewrite Hc. simpl. lia.
  - intros e Hc.
    assert (Hsz : size' a = 1) by (unfold size; by rewrite Hc).
    split.
    + intros i Hmin Hi. apply getitem_out_of_range; [done | lia].
    + intros Hreach.
      pose proof (reachable_cache_ok contents payload st Hreach) as Hok.
      destruct (getitem_returns contents payload a 0 st Hok) as (e' & He' & ->).
      * rewrite Hsz. unfold LONG_MAX. lia.
      * lia.
      * intros (Hj & Hl & _).
        destruct (Hok a Hj) as [(abs_l & Hlabs & Habs) _].
        apply labs_Some_inv in Hlabs as [-> _]. lia.
      * rewrite Hc in He'. simpl in He'. by injection He' as <-.
Qed.

(** X5.  Adjacent indices.  Right after a call of index [i] that returned, the
    call of index [i + 1] on the same object takes the cached path: for
    every [i] other than [-1], negative ones included, it costs one
    iterator increment and returns the element at the resolved index; for
    [i = -1] the increment reaches [end()] and the call has no defined
    result. *)
Theorem getitem_adjacent (a : addr) (i : Z) (st st1 : statics) (x : R) :
  reachable' st -> size' a <= LONG_MAX ->
  getitem' a i st = (Ok x, st1) ->
  - size' a < i + 1 < size' a ->
  (i <> -1 ->
   exists e,
     contents a !! Z.to_nat (resolve (size' a) (i + 1)) = Some e /\
     getitem' a (i + 1) st1 =
     (Ok (payload e),
      {| last_index := i + 1; last_journal := Some a;
         elem := Some {| it_owner := a;
                         it_pos := resolve (size' a) (i + 1) |};
         steps := steps st1 + 1 |})) /\
  (i = -1 -> fst (getitem' a (i + 1) st1) = Undefined).
Proof.
  intros Hreach Hfit Hprev Hb.
  pose proof (reachable_cache_ok contents payload st Hreach) as Hok.
  assert (Hok1 : cache_ok' st1)
    by (eapply (getitem_cache_ok contents payload a i st);
        [done | exact Hprev | done]).
  destruct (getitem_Ok_statics contents payload _ _ _ _ _ Hprev) as [Hj Hl].
  destruct (Hok1 a Hj) as [(abs_l & Hlabs & Habs) _].
  rewrite Hl in Hlabs. apply labs_Some_inv in Hlabs as [-> _].
  split.
  - intros Hi.
    pose proof (resolve_position contents a (i + 1) Hb) as Hpos.
    destruct (position_exists contents a _ Hpos) as [e He].
    exists e. split; [done |].
    pose proof (getitem_hit contents payload a (i + 1) st1 Hok1 Hfit Hb Hj
                  ltac:(lia)) as Hhit.
    cbv zeta in Hhit. rewrite Hl in Hhit.
    assert (Hres : resolve (size' a) i + 1 = resolve (size' a) (i + 1)).
    { unfold resolve.
      destruct (Z.ltb_spec i 0), (Z.ltb_spec (i + 1) 0); lia. }
    rewrite Hres in Hhit.
    by rewrite (deref_position contents payload a _ e) in Hhit by (lia || done).
  - intros ->. change (-1 + 1) with 0.
    apply getitem_after_minus_one; [done | done | lia | done | done].
Qed.

(** X6.  Interleaving.  In a state the accessor can be in whose cached object
    is another one (or none), an in-bounds call never touches the cached
    iterator: it walks from [begin()], as many steps as the resolved index,
    returns the element there and caches the object asked for. *)
Theorem getitem_other_container (a : addr) (i : Z) (st : statics) :
  reachable' st -> size' a <= LONG_MAX ->
  last_journal st <> Some a ->
  - size' a < i < size' a ->
  exists e,
    contents a !! Z.to_nat (resolve (size' a) i) = Some e /\
    getitem' a i st =
    (Ok (payload e),
     {| last_index := i; last_journal := Some a;
        elem := Some {| it_owner := a; it_pos := resolve (size' a) i |};
        steps := steps st + resolve (size' a) i |}).
Proof.
  intros Hreach Hfit Hj Hb.
  apply getitem_miss;
    [by apply (reachable_cache_ok contents payload) | done | done |].
  by intros [? _].
Qed.
(** X7.  The cost of one call that returns or raises.  From a state the
    accessor can be in, a call that returns has executed at most
    [length - 1] iterator increments, and a call that raises none. *)
Theorem getitem_cost_bound (a : addr) (i : Z) (st : statics) :
  reachable' st -> size' a <= LONG_MAX ->
  (forall x, fst (getitem' a i st) = Ok x ->
     0 <= steps (snd (getitem' a i st)) - steps st <= size' a - 1) /\
  (forall e, fst (getitem' a i st) = Raise e ->
     steps (snd (getitem' a i st)) = steps st).
Proof.
  intros Hreach Hfit.
  pose proof (reachable_cache_ok contents payload st Hreach) as Hok.
  split.
  - intros x Hx.
    assert (Hmin : i <> LONG_MIN).
    { intros ->. unfold getitem in Hx. simpl in Hx. discriminate Hx. }
    assert (Hb : - size' a < i < size' a).
    { destruct (Z.le_gt_cases (size' a) (Z.abs i)) as [Hout | Hin]; [| lia].
      rewrite getitem_out_of_range in Hx by done. discriminate Hx. }
    destruct (decide (last_journal st = Some a /\ i = last_index st + 1))
      as [[Hj Hi] | Hmiss].
    + rewrite getitem_hit in Hx |- * by done. simpl in Hx |- *.
      assert (size' a <> 1); [| lia].
      intros Hone. destruct (Hok a Hj) as [(abs_l & Hlabs & Habs) _].
      apply labs_Some_inv in Hlabs as [-> _].
      assert (Hl : last_index st = 0) by lia. rewrite Hl in Hx.
      unfold resolve in Hx. simpl in Hx.
      rewrite lookup_ge_None_2 in Hx; [done |]. unfold size in Hone. lia.
    + destruct (getitem_miss contents payload a i st Hok Hfit Hb Hmiss)
        as (e & _ & ->). simpl.
      pose proof (resolve_position contents a i Hb). lia.
  - intros e He.
    destruct (getitem_raises_iff a i st) as [_ Hraise].
    destruct (Hraise e He) as [_ ->]. reflexivity.
Qed.
End IndexedAccessorMore.

Lemma sample_statics_reachable :
  xacts_reachable sample_journals
    (snd (xacts_getitem sample_journals 1%positive (- 2) initial_statics)).
Proof.
  eapply (reachable_call _ _ initial_statics 1%positive (- 2)).
  - apply reachable_initial.
  - unfold in_long, LONG_MIN, LONG_MAX. lia.
  - reflexivity.
  - discriminate.
Qed.

Lemma getitem_returns_iff_witness :
  xacts_reachable sample_journals initial_statics /\
  xacts_len sample_journals 1%positive <= LONG_MAX /\
  (fst (xacts_getitem sample_journals 1%positive (- 1) initial_statics)
   = Ok xact_3 <->
   - xacts_len sample_journals 1%positive < - 1
     < xacts_len sample_journals 1%positive /\
   ~ (last_journal initial_statics = Some 1%positive /\
      last_index initial_statics = -1 /\ - 1 = 0) /\
   exists e,
     xacts (sample_journals 1%positive)
       !! Z.to_nat (resolve (xacts_len sample_journals 1%positive) (- 1))
     = Some e /\ xact_3 = id e).
Proof.
  assert (Hr : xacts_reachable sample_journals initial_statics)
    by apply reachable_initial.
  assert (Hfit : xacts_len sample_journals 1%positive <= LONG_MAX)
    by (vm_compute; discriminate).
  split; [exact Hr | split; [exact Hfit |]].
  exact (getitem_returns_iff (fun a => xacts (sample_journals a)) id
           1%positive (- 1) initial_statics xact_3 Hr Hfit).
Defined.

Lemma reachable_statics_invariant_witness :
  let st := snd (xacts_getitem sample_journals 1%positive (- 2)
                   initial_statics) in
  xacts_reachable sample_journals st /\
  match last_journal st with
  | None => st = initial_statics
  | Some a =>
      - xacts_len sample_journals a < last_index st
        < xacts_len sample_journals a /\
      elem st = Some {| it_owner := a;
                        it_pos := resolve (xacts_len sample_journals a)
                                    (last_index st) |} /\
      exists e,
        xacts (sample_journals a)
          !! Z.to_nat (resolve (xacts_len sample_journals a) (last_index st))
        = Some e /\
        deref (fun a => xacts (sample_journals a)) id (elem st) = Ok (id e)
  end.
Proof.
  split; [exact sample_statics_reachable |].
  exact (reachable_statics_invariant (fun a => xacts (sample_journals a)) id
           _ sample_statics_reachable).
Defined.

Lemma getitem_adjacent_witness :
  xacts_reachable sample_journals initial_statics /\
  xacts_len sample_journals 1%positive <= LONG_MAX /\
  xacts_getitem sample_journals 1%positive (- 2) initial_statics
  = (Ok xact_2,
     {| last_index := - 2; last_journal := Some 1%positive;
        elem := Some {| it_owner := 1%positive; it_pos := 1 |};
        steps := 1 |}) /\
  - xacts_len sample_journals 1%positive < - 2 + 1
    < xacts_len sample_journals 1%positive /\
  fst (xacts_getitem sample_journals 1%positive (- 2 + 1)
         {| last_index := - 2; last_journal := Some 1%positive;
            elem := Some {| it_owner := 1%positive; it_pos := 1 |};
            steps := 1 |})
  = Ok xact_3.
Proof.
  assert (Hr : xacts_reachable sample_journals initial_statics)
    by apply reachable_initial.
  assert (Hfit : xacts_len sample_journals 1%positive <= LONG_MAX)
    by (vm_compute; discriminate).
  assert (Hprev : xacts_getitem sample_journals 1%positive (- 2) initial_statics
                  = (Ok xact_2,
                     {| last_index := - 2; last_journal := Some 1%positive;
                        elem := Some {| it_owner := 1%positive; it_pos := 1 |};
                        steps := 1 |})) by reflexivity.
  assert (Hb : - xacts_len sample_journals 1%positive < - 2 + 1
               < xacts_len sample_journals 1%positive)
    by (vm_compute; split; reflexivity).
  split; [exact Hr | split; [exact Hfit | split; [exact Hprev |
    split; [exact Hb |]]]].
  destruct (getitem_adjacent (fun a => xacts (sample_journals a)) id
              1%positive (- 2) initial_statics _ xact_2 Hr Hfit Hprev Hb)
    as [Hnext _].
  destruct (Hnext ltac:(discriminate)) as (e & He & Hcall).
  unfold xacts_getitem. rewrite Hcall. simpl.
  vm_compute in He. by injection He as <-.
Defined.

Lemma getitem_other_container_witness :
  let st := snd (xacts_getitem sample_journals 1%positive (- 2)
                   initial_statics) in
  xacts_reachable sample_journals st /\
  xacts_len sample_journals 2%positive <= LONG_MAX /\
  last_journal st <> Some 2%positive /\
  - xacts_len sample_journals 2%positive < 0
    < xacts_len sample_journals 2%positive /\
  fst (xacts_getitem sample_journals 2%positive 0 st) = Ok xact_2.
Proof.
  cbv zeta.
  assert (Hfit : xacts_len sample_journals 2%positive <= LONG_MAX)
    by (vm_compute; discriminate).
  assert (Hj : last_journal (snd (xacts_getitem sample_journals 1%positive
                                    (- 2) initial_statics))
               <> Some 2%positive) by discriminate.
  assert (Hb : - xacts_len sample_journals 2%positive < 0
               < xacts_len sample_journals 2%positive)
    by (vm_compute; split; reflexivity).
  split; [exact sample_statics_reachable | split; [exact Hfit |
    split; [exact Hj | split; [exact Hb |]]]].
  destruct (getitem_other_container (fun a => xacts (sample_journals a)) id
              2%positive 0 _ sample_statics_reachable Hfit Hj Hb)
    as (e & He & Hcall).
  vm_compute in He. injection He as <-.
  exact (f_equal fst Hcall).
Defined.

(** ** [accounts_getitem] *)

(** X8.  An ascending pass over the children of an account, begun in a state in
    which its first call has defined behaviour, returns the children in the
    order of the map, walking no step in its first call and one step in
    each later call. *)
Theorem accounts_getitem_ascending_pass
    (heap : addr -> account_t) (account : addr) (st : statics) :
  accounts_reachable heap st ->
  accounts_len heap account <= LONG_MAX ->
  fst (accounts_getitem heap account 0 st) <> Undefined ->
  fst (run_calls (accounts_getitem heap)
         (ascending account 0 (length (accounts (heap account)))) st)
  = match accounts (heap account) with
    | [] => []
    | child :: rest =>
        (Ok (snd child), 0) :: ((fun c => (Ok (snd c), 1)) <$> rest)
    end.
Proof.
  intros Hreach Hfit Hdef.
  exact (ascending_pass_defined (fun a => accounts (heap a)) snd account st
           (accounts_cache_ok heap st Hreach) Hfit Hdef).
Qed.

Lemma accounts_getitem_ascending_pass_witness :
  accounts_reachable sample_accounts initial_statics /\
  accounts_len sample_accounts 5%positive <= LONG_MAX /\
  fst (accounts_getitem sample_accounts 5%positive 0 initial_statics)
  <> Undefined /\
  fst (run_calls (accounts_getitem sample_accounts)
         (ascending 5%positive 0 2) initial_statics)
  = [(Ok 6%positive, 0); (Ok 7%positive, 1)].
Proof.
  assert (Hr : accounts_reachable sample_accounts initial_statics)
    by apply reachable_initial.
  assert (Hfit : accounts_len sample_accounts 5%positive <= LONG_MAX)
    by (vm_compute; discriminate).
  assert (Hdef : fst (accounts_getitem sample_accounts 5%positive 0
                        initial_statics) <> Undefined) by discriminate.
  split; [exact Hr | split; [exact Hfit | split; [exact Hdef |]]].
  exact (accounts_getitem_ascending_pass sample_accounts 5%positive
           initial_statics Hr Hfit Hdef).
Defined.

(** X9.  Negative indices of [accounts_getitem]: in an account with [n]
    children, for every [k] with [1 <= k < n], index [-k] and index [n - k]
    both return the child at position [n - k]; index [-n] raises
    [IndexError]. *)
Theorem accounts_negative_index
    (heap : addr -> account_t) (account : addr) (k : Z) (st1 st2 : statics) :
  accounts_reachable heap st1 -> accounts_reachable heap st2 ->
  accounts_len heap account <= LONG_MAX ->
  1 <= k < accounts_len heap account ->
  (exists child,
      accounts (heap account) !! Z.to_nat (accounts_len heap account - k)
      = Some child /\
      fst (accounts_getitem heap account (- k) st1) = Ok (snd child) /\
      fst (accounts_getitem heap account (accounts_len heap account - k) st2)
      = Ok (snd child)) /\
  accounts_getitem heap account (- accounts_len heap account) st1
  = (Raise PyExc_IndexError, st1).
Proof.
  intros Hr1 Hr2 Hfit Hk. split.
  - destruct (accounts_getitem_returns heap account (- k) st1)
      as (x & Hx & Hget1); [done | done | lia | lia |].
    destruct (accounts_getitem_returns heap account
                (accounts_len heap account - k) st2)
      as (y & Hy & Hget2); [done | done | lia | lia |].
    assert (Hres1 : resolve (accounts_len heap account) (- k)
                    = accounts_len heap account - k).
    { unfold resolve. destruct (Z.ltb_spec (- k) 0); lia. }
    assert (Hres2 : resolve (accounts_len heap account)
                      (accounts_len heap account - k)
                    = accounts_len heap account - k).
    { unfold resolve.
      destruct (Z.ltb_spec (accounts_len heap account - k) 0); lia. }
    rewrite Hres1 in Hx. rewrite Hres2 in Hy.
    assert (y = x) as -> by congruence.
    by exists x.
  - apply accounts_getitem_out_of_range; unfold LONG_MAX, LONG_MIN in *; lia.
Qed.

Lemma accounts_negative_index_witness :
  accounts_reachable sample_accounts initial_statics /\
  accounts_len sample_accounts 5%positive <= LONG_MAX /\
  1 <= 1 < accounts_len sample_accounts 5%positive /\
  (exists child,
      accounts (sample_accounts 5%positive)
        !! Z.to_nat (accounts_len sample_accounts 5%positive - 1)
      = Some child /\
      fst (accounts_getitem sample_accounts 5%positive (- 1) initial_statics)
      = Ok (snd child) /\
      fst (accounts_getitem sample_accounts 5%positive
             (accounts_len sample_accounts 5%positive - 1) initial_statics)
      = Ok (snd child)) /\
  accounts_getitem sample_accounts 5%positive
    (- accounts_len sample_accounts 5%positive) initial_statics
  = (Raise PyExc_IndexError, initial_statics).
Proof.
  assert (Hr : accounts_reachable sample_accounts initial_statics)
    by apply reachable_initial.
  assert (Hfit : accounts_len sample_accounts 5%positive <= LONG_MAX)
    by (vm_compute; discriminate).
  assert (Hk : 1 <= 1 < accounts_len sample_accounts 5%positive)
    by (vm_compute; split; [discriminate | reflexivity]).
  split; [exact Hr | split; [exact Hfit | split; [exact Hk |]]].
  exact (accounts_negative_index sample_accounts 5%positive 1
           initial_statics initial_statics Hr Hr Hfit Hk).
Defined.

(** * Further properties of the collector and of the collection *)

(** X10.  Inside its bounds [posts_getitem] returns the collected posting at
    that position, leaves the collector as it is and writes four lines to
    [std::cerr]; asked for the indices [0 .. length-1] in turn it yields
    the collected postings in the order they arrived. *)
Theorem posts_getitem_enumerates {report_t : Type}
    (collector : collector_wrapper report_t) (cerr : list typeid_name) :
  (forall i, 0 <= i < length_ collector ->
     exists post,
       coll_posts collector !! Z.to_nat i = Some post /\
       posts_getitem collector i cerr =
       (Ok post,
        cerr ++ [name_post_ptr; name_post; name_account_ptr; name_account])) /\
  (fun k => fst (posts_getitem collector (Z.of_nat k) cerr))
    <$> seq 0 (length (coll_posts collector))
  = Ok <$> coll_posts collector.
Proof.
  split.
  - intros i Hi. unfold length_ in Hi.
    destruct (lookup_lt_is_Some_2 (coll_posts collector) (Z.to_nat i))
      as [p Hp]; [lia |].
    exists p. split; [done |]. unfold posts_getitem.
    destruct (Z.ltb_spec i 0); [lia |]. by rewrite Hp.
  - apply list_eq. intros k. rewrite !list_lookup_fmap.
    destruct (decide (k < length (coll_posts collector))%nat) as [Hk | Hk].
    + rewrite lookup_seq_lt by done. simpl.
      destruct (lookup_lt_is_Some_2 (coll_posts collector) k Hk) as [p Hp].
      rewrite Hp. simpl. unfold posts_getitem.
      destruct (Z.ltb_spec (Z.of_nat k) 0); [lia |].
      by rewrite Nat2Z.id, Hp.
    + rewrite lookup_seq_ge by lia.
      by rewrite lookup_ge_None_2 by lia.
Qed.

Lemma walk_Some chain walker : forall collected store collected',
  fst (walk chain walker collected store) = Some collected' <->
  Forall (fun post => is_Some (chain post)) walker /\
  collected' = collected
               ++ filter (fun post => chain_forwards chain post = true) walker.
Proof.
  induction walker as [| post rest IH]; intros collected store collected'.
  - simpl. rewrite app_nil_r. split.
    + intros [= <-]. by split.
    + by intros [_ ->].
  - simpl. destruct (chain post) as [v |] eqn:Hv.
    + assert (Hf : chain_forwards chain post = forward v)
        by (unfold chain_forwards; by rewrite Hv).
      assert (Hs : is_Some (chain post)) by (by rewrite Hv).
      rewrite IH, Forall_cons, filter_cons.
      destruct (decide (chain_forwards chain post = true)) as [Ht | Ht];
        rewrite Hf in Ht; destruct (forward v); try done.
      * rewrite <- app_assoc. simpl.
        split; [intros [? ?]; by split | intros [[_ ?] ?]; by split].
      * split; [intros [? ?]; by split | intros [[_ ?] ?]; by split].
    + split; [done |]. intros [Hall _].
      apply Forall_cons in Hall as [[v' Hv'] _]. congruence.
Qed.

Lemma walk_None chain walker : forall collected store,
  fst (walk chain walker collected store) = None <->
  exists post, post ∈ walker /\ chain post = None.
Proof.
  induction walker as [| post rest IH]; intros collected store.
  - simpl. split; [done |]. intros (p & Hin & _). by apply elem_of_nil in Hin.
  - simpl. destruct (chain post) as [v |] eqn:Hv.
    + rewrite IH. split.
      * intros (p & Hin & Hp). exists p. split; [by apply list_elem_of_further | done].
      * intros (p & Hin & Hp). apply elem_of_cons in Hin as [-> | Hin];
          [congruence | by exists p].
    + split; [| done]. intros _. exists post. split; [apply list_elem_of_here | done].
Qed.

Section CollectMore.
Variable report_t : Type.
Variable split_arguments : string -> option (list string).
Variable process_arguments :
  list string -> report_t -> option (list string * report_t).
Variable normalize_options : string -> report_t -> option report_t.
Variable parse_query_args : list string -> string -> report_t -> option report_t.
Variable chain_post_handlers : report_t -> addr -> option verdict.

#[local] Abbreviation collect :=
  (py_collect split_arguments process_arguments normalize_options
     parse_query_args chain_post_handlers).
#[local] Abbreviation compiled :=
  (compile split_arguments process_arguments normalize_options
     parse_query_args).

#[local] Ltac unfold_collect :=
  rewrite (py_collect_unfold report_t split_arguments process_arguments
             normalize_options parse_query_args chain_post_handlers);
  unfold py_collect_outcome.

#[local] Ltac absurd_iff :=
  split; [first [done | by intros [? ?]]
         | first [done | by intros [? _] | by intros [_ ?]]].

(** X11.  The outcomes of [py_collect] on a live journal.  The call always has
    defined behaviour, and each outcome has its own cause: [RuntimeError]
    when [has_xdata] of the journal is true, the error of argument processing
    when the query does not compile against the ambient report, the error
    of a handler when the query compiles and the chain throws on one of
    the journal's postings, and a collector in the remaining case. *)
Theorem py_collect_outcomes
    (w : world report_t) (journal : addr) (j : journal_t) (query : string) :
  journals w !! journal = Some j ->
  let r := fst (collect journal query w) in
  r <> Undefined /\
  (r = Raise PyExc_RuntimeError <-> has_xdata j = true) /\
  (r = Raise parse_error <->
   has_xdata j = false /\ compiled query (default_scope w) = None) /\
  (r = Raise handler_error <->
   has_xdata j = false /\
   exists report3 post,
     compiled query (default_scope w) = Some report3 /\
     post ∈ journal_posts j /\ chain_post_handlers report3 post = None) /\
  ((exists coll, r = Ok coll) <->
   has_xdata j = false /\
   exists report3,
     compiled query (default_scope w) = Some report3 /\
     Forall (fun post => is_Some (chain_post_handlers report3 post))
       (journal_posts j)).
Proof.
  intros Hj. cbv zeta. unfold_collect. rewrite Hj.
  destruct (has_xdata j) eqn:Hx.
  { simpl. split; [done |]. split; [done |].
    split; [absurd_iff |]. split; absurd_iff. }
  cbv zeta.
  destruct (compiled query (default_scope w)) as [r3 |] eqn:Hc.
  - destruct (walk (chain_post_handlers r3) (concat (posts <$> xacts j)) []
                (xdata j)) as [[c |] store] eqn:Hw; simpl.
    + assert (Hsome : fst (walk (chain_post_handlers r3) (journal_posts j) []
                             (xdata j)) = Some c)
        by (unfold journal_posts; by rewrite Hw).
      apply walk_Some in Hsome as [Hall _].
      split; [done |]. split; [absurd_iff |]. split; [absurd_iff |].
      split; [split; [done |] | split].
      * intros (_ & r3' & post & [= <-] & Hin & Hnone).
        rewrite Forall_forall in Hall. destruct (Hall post Hin) as [v Hv].
        congruence.
      * intros _. split; [done |]. by exists r3.
      * intros _. by eexists.
    + assert (Hnone : fst (walk (chain_post_handlers r3) (journal_posts j) []
                             (xdata j)) = None)
        by (unfold journal_posts; by rewrite Hw).
      apply walk_None in Hnone as (post & Hin & Hpost).
      split; [done |]. split; [absurd_iff |]. split; [absurd_iff |].
      split; [split | split].
      * intros _. split; [done |]. by exists r3, post.
      * done.
      * by intros [? ?].
      * intros (_ & r3' & [= <-] & Hall).
        rewrite Forall_forall in Hall. destruct (Hall post Hin) as [v Hv].
        congruence.
  - simpl. split; [done |]. split; [absurd_iff |]. split; [done |].
    split; split; try done.
    + by intros (_ & ? & ? & ? & _).
    + by intros [? ?].
    + by intros (_ & ? & ? & _).
Qed.

(** X13.  A [py_collect] that fails past the guard, in argument processing
    or in a handler, releases the journal: when the exception leaves
    [py_collect] the collector has been destroyed, so the journal keeps its
    transactions, its annotation store is empty, also of what the walk
    attached before the handler threw, [has_xdata] is false, and a further
    [py_collect] on the journal is not refused.  No other journal has
    changed. *)
Theorem py_collect_failure_releases
    (w w1 : world report_t) (journal : addr) (query : string) (e : exn) :
  collect journal query w = (Raise e, w1) -> e <> PyExc_RuntimeError ->
  exists j,
    journals w !! journal = Some j /\
    journals w1 = <[journal := clear_xdata j]> (journals w) /\
    (forall query2,
       fst (collect journal query2 w1) <> Raise PyExc_RuntimeError).
Proof.
  unfold_collect.
  destruct (journals w !! journal) as [j |] eqn:Hj; [| done].
  destruct (has_xdata j) eqn:Hx; [by intros [= <- _] |]. cbv zeta.
  assert (Hretry : forall evs query2,
            fst (collect journal query2
                   (world_with w journal (clear_xdata j) evs))
            <> Raise PyExc_RuntimeError).
  { intros evs query2. unfold_collect. simpl. rewrite lookup_insert_eq. simpl.
    destruct (compiled query2 (default_scope w)) as [r3 |]; [| done].
    by destruct (walk _ _ _ _) as [[c |] store]. }
  destruct (compiled query (default_scope w)) as [r3 |].
  - destruct (walk _ _ _ _) as [[c |] store]; [done |].
    intros [= _ <-] _. exists j. split; [done |]. split; [done | apply Hretry].
  - intros [= _ <-] _. exists j. split; [done |]. split; [done | apply Hretry].
Qed.

(** X14.  Collecting from a journal whose annotation store is empty and
    then destroying the collector is a round trip on the journals: each of
    them, the one collected from included, is exactly what it was before
    the collection, and the slot [session.journal] holds what it held. *)
Theorem collect_then_destroy
    (w w1 : world report_t) (journal : addr) (j : journal_t) (query : string)
    (coll : collector_wrapper report_t) :
  journals w !! journal = Some j -> xdata j = [] ->
  collect journal query w = (Ok coll, w1) ->
  exists w2,
    delete_collector_wrapper coll w1 = (Ok tt, w2) /\
    journals w2 = journals w /\
    session_journal w2 = session_journal w.
Proof.
  intros Hj Hempty. unfold_collect. rewrite Hj.
  destruct (has_xdata j) eqn:Hx; [done |]. cbv zeta.
  destruct (compiled query (default_scope w)) as [r3 |]; [| done].
  destruct (walk _ _ _ _) as [[c |] store]; [| done].
  intros [= <- <-]. eexists. split.
  - unfold delete_collector_wrapper, mbind, W_bind, bind, journal_ref,
      journal_store, log. simpl. rewrite lookup_insert_eq. reflexivity.
  - simpl. split; [| done].
    rewrite insert_insert_eq. apply insert_id. rewrite Hj. f_equal.
    destruct j as [xs flag ns]. unfold has_xdata in Hx. simpl in *.
    by subst.
Qed.

(** X15.  [py_collect] neither deletes nor creates a journal, whatever the slot
    held and whatever the outcome: releasing the slot before every reset
    keeps the [unique_ptr] from deleting the journal it is handed or the
    one it held. *)
Theorem py_collect_keeps_journals
    (w : world report_t) (journal : addr) (query : string) :
  dom (journals (snd (collect journal query w))) = dom (journals w).
Proof.
  unfold_collect.
  destruct (journals w !! journal) as [j |] eqn:Hj; [| done].
  assert (Hdom : forall j' evs,
            dom (journals (world_with w journal j' evs)) = dom (journals w)).
  { intros j' evs. simpl. apply dom_insert_lookup_L. by exists j. }
  destruct (has_xdata j); [done |]. cbv zeta.
  destruct (compiled query (default_scope w)) as [r3 |]; [| apply Hdom].
  destruct (walk _ _ _ _) as [[c |] store]; apply Hdom.
Qed.

(** X16.  The guard is per journal.  After a successful collection from one
    journal, whose collector is still alive, a collection from another
    journal has the outcome it would have had before, and it leaves the
    first journal and its transient data as they are. *)
Theorem collections_on_distinct_journals
    (w w1 : world report_t) (a b : addr) (query_a query_b : string)
    (coll_a : collector_wrapper report_t) :
  collect a query_a w = (Ok coll_a, w1) -> a <> b ->
  fst (collect b query_b w1) = fst (collect b query_b w) /\
  journals (snd (collect b query_b w1)) !! a = journals w1 !! a.
Proof.
  intros Ha Hab.
  assert (Hw1 : journals w1 !! b = journals w !! b /\
                default_scope w1 = default_scope w).
  { revert Ha. unfold_collect.
    destruct (journals w !! a) as [j |]; [| done].
    destruct (has_xdata j); [done |]. cbv zeta.
    destruct (compiled query_a (default_scope w)) as [r3 |]; [| done].
    destruct (walk _ _ _ _) as [[c |] store]; [| done].
    intros [= _ <-]. simpl. by rewrite lookup_insert_ne. }
  destruct Hw1 as [Hb Hscope]. split.
  - unfold_collect. unfold_collect. rewrite Hb, Hscope.
    destruct (journals w !! b) as [j |]; [| done].
    destruct (has_xdata j); [done |]. cbv zeta.
    destruct (compiled query_b (default_scope w)) as [r3 |]; [| done].
    by destruct (walk _ _ _ _) as [[c |] store].
  - unfold_collect.
    destruct (journals w1 !! b) as [j |]; [| done].
    destruct (has_xdata j); [done |]. cbv zeta.
    assert (Hother : forall j' evs,
              journals (world_with w1 b j' evs) !! a = journals w1 !! a).
    { intros j' evs. simpl. by rewrite lookup_insert_ne. }
    destruct (compiled query_b (default_scope w1)) as [r3 |]; [| apply Hother].
    destruct (walk _ _ _ _) as [[c |] store]; apply Hother.
Qed.

End CollectMore.

(** ** The further properties on the sample world *)

Lemma py_collect_outcomes_witness :
  journals sample_world !! 3%positive
  = Some {| xacts := [{| posts := [41%positive; 99%positive] |}];
            pending := false; xdata := [] |} /\
  fst (sample_py_collect 3%positive "assets" sample_world)
  = Raise handler_error.
Proof.
  assert (Hj : journals sample_world !! 3%positive
               = Some {| xacts := [{| posts := [41%positive; 99%positive] |}];
                         pending := false; xdata := [] |}) by reflexivity.
  split; [exact Hj |].
  destruct (py_collect_outcomes sample_report sample_split_arguments
              sample_process_arguments sample_normalize_options
              sample_parse_query_args sample_chain
              sample_world 3%positive _ "assets" Hj)
    as (_ & _ & _ & [_ Hhandler] & _).
  apply Hhandler. split; [reflexivity |].
  exists ["--base"; "register"; "assets"]%string, 99%positive.
  split; [reflexivity | split; [| reflexivity]].
  apply list_elem_of_further, list_elem_of_here.
Defined.

Lemma py_collect_failure_releases_witness :
  exists e w1,
    sample_py_collect 3%positive "assets" sample_world = (Raise e, w1) /\
    e <> PyExc_RuntimeError /\
    exists j,
      journals sample_world !! 3%positive = Some j /\
      journals w1 = <[3%positive := clear_xdata j]> (journals sample_world) /\
      (forall query2,
         fst (sample_py_collect 3%positive query2 w1)
         <> Raise PyExc_RuntimeError).
Proof.
  destruct (sample_py_collect 3%positive "assets" sample_world)
    as [[coll | e |] w1] eqn:Hrun; try (vm_compute in Hrun; discriminate Hrun).
  assert (He : e <> PyExc_RuntimeError).
  { intros ->. vm_compute in Hrun. discriminate Hrun. }
  exists e, w1. split; [reflexivity |]. split; [exact He |].
  exact (py_collect_failure_releases sample_report sample_split_arguments
           sample_process_arguments sample_normalize_options
           sample_parse_query_args sample_chain
           sample_world w1 3%positive "assets" e Hrun He).
Defined.

Lemma collect_then_destroy_witness :
  exists j coll w1,
    journals sample_world !! 1%positive = Some j /\ xdata j = [] /\
    sample_py_collect 1%positive "assets" sample_world = (Ok coll, w1) /\
    exists w2,
      delete_collector_wrapper coll w1 = (Ok tt, w2) /\
      journals w2 = journals sample_world /\
      session_journal w2 = session_journal sample_world.
Proof.
  destruct (sample_py_collect 1%positive "assets" sample_world)
    as [[coll | e |] w1] eqn:Hrun; try (vm_compute in Hrun; discriminate Hrun).
  assert (Hj : journals sample_world !! 1%positive
               = Some {| xacts := [xact_1; xact_2; xact_3]; pending := false;
                         xdata := [] |}) by reflexivity.
  eexists _, coll, w1. split; [exact Hj |]. split; [reflexivity |].
  split; [reflexivity |].
  exact (collect_then_destroy sample_report sample_split_arguments
           sample_process_arguments sample_normalize_options
           sample_parse_query_args sample_chain
           sample_world w1 1%positive _ "assets" coll Hj eq_refl Hrun).
Defined.

Lemma collections_on_distinct_journals_witness :
  exists coll w1,
    sample_py_collect 1%positive "assets" sample_world = (Ok coll, w1) /\
    1%positive <> 3%positive /\
    fst (sample_py_collect 3%positive "assets" w1)
    = fst (sample_py_collect 3%positive "assets" sample_world) /\
    journals (snd (sample_py_collect 3%positive "assets" w1)) !! 1%positive
    = journals w1 !! 1%positive.
Proof.
  destruct (sample_py_collect 1%positive "assets" sample_world)
    as [[coll | e |] w1] eqn:Hrun; try (vm_compute in Hrun; discriminate Hrun).
  exists coll, w1. split; [reflexivity |].
  assert (Hne : 1%positive <> 3%positive) by discriminate.
  split; [exact Hne |].
  exact (collections_on_distinct_journals sample_report sample_split_arguments
           sample_process_arguments sample_normalize_options
           sample_parse_query_args sample_chain
           sample_world w1 1%positive 3%positive "assets" "assets" coll
           Hrun Hne).
Defined.

Lemma getitem_cost_bound_witness :
  let st := snd (xacts_getitem sample_journals 1%positive (- 2)
                   initial_statics) in
  xacts_reachable sample_journals st /\
  xacts_len sample_journals 1%positive <= LONG_MAX /\
  fst (xacts_getitem sample_journals 1%positive 2 st) = Ok xact_3 /\
  0 <= steps (snd (xacts_getitem sample_journals 1%positive 2 st)) - steps st
    <= xacts_len sample_journals 1%positive - 1.
Proof.
  assert (Hfit : xacts_len sample_journals 1%positive <= LONG_MAX)
    by (vm_compute; discriminate).
  assert (Hx : fst (xacts_getitem sample_journals 1%positive 2
                      (snd (xacts_getitem sample_journals 1%positive (- 2)
                              initial_statics))) = Ok xact_3) by reflexivity.
  split; [exact sample_statics_reachable | split; [exact Hfit |
    split; [exact Hx |]]].
  exact (proj1 (getitem_cost_bound (fun a => xacts (sample_journals a)) id
                  1%positive 2 _ sample_statics_reachable Hfit) xact_3 Hx).
Defined.
